(** * Workflow-Guard: the rule execution pipeline

    A shallow embedding of the three services of the rule pipeline and the
    properties of them that the specification states:

    - [Evaluator]  server/services/evaluator.js (class EvaluatorService)
    - [Executor]   server/services/executor.js  (class ExecutorService)
    - [Scheduler]  server/services/scheduler.js (class SchedulerService)

    JavaScript exceptions are values of [exn] carried by [result]; code that
    also mutates state runs in the state-and-exception monad [M].  The
    libraries the services call (json-logic-js, axios, node-cron, the WHATWG
    URL parser) are not part of the repository: they are Section variables.
    Calls to the logger write to an external sink and return nothing; they are
    left out.  Clock readings that only feed log lines and the executionTime
    and timestamp fields are left out as well. *)

From Stdlib Require Import ZArith String Ascii List Bool Lia DecimalString.
From stdpp Require Import gmap strings list fin_maps.

Import ListNotations.
Open Scope string_scope.
Open Scope list_scope.
Open Scope Z_scope.

(* ===================================================================== *)
(** * Part I: the embedding                                               *)
(* ===================================================================== *)

(** ** JavaScript values, exceptions and effects *)

Module Js.

(** The values a JSON document denotes, plus [undefined].  Conditions, input
    records and rules reach the services from [JSON.parse] (request bodies and
    the rules table), so they are trees: every object and array is a node of
    its own.  Numbers are the integral ones. *)
#[local] Unset Elimination Schemes.
Inductive jsval : Type :=
| JUndefined
| JNull
| JBool (b : bool)
| JNum (n : Z)
| JStr (s : string)
| JArray (items : list jsval)
| JObject (fields : list (string * jsval)).
#[local] Set Elimination Schemes.

Section Induction.

Variable P : jsval -> Prop.
Hypothesis P_undefined : P JUndefined.
Hypothesis P_null : P JNull.
Hypothesis P_bool : forall b, P (JBool b).
Hypothesis P_num : forall n, P (JNum n).
Hypothesis P_str : forall s, P (JStr s).
Hypothesis P_array : forall items, Forall P items -> P (JArray items).
Hypothesis P_object :
  forall fields, Forall (fun kv => P (snd kv)) fields -> P (JObject fields).

(** Induction on a value with the hypothesis for every item and field. *)
Fixpoint jsval_ind (v : jsval) : P v :=
  match v with
  | JUndefined => P_undefined
  | JNull => P_null
  | JBool b => P_bool b
  | JNum n => P_num n
  | JStr s => P_str s
  | JArray items =>
      P_array items
        ((fix all (l : list jsval) : Forall P l :=
            match l with
            | [] => List.Forall_nil P
            | x :: rest => List.Forall_cons P x rest (jsval_ind x) (all rest)
            end) items)
  | JObject fields =>
      P_object fields
        ((fix all (l : list (string * jsval))
            : Forall (fun kv => P (snd kv)) l :=
            match l with
            | [] => List.Forall_nil _
            | kv :: rest =>
                List.Forall_cons _ kv rest (jsval_ind (snd kv)) (all rest)
            end) fields)
  end.

End Induction.

(** A thrown value: the constructor is the error class, the argument its
    [message].  [AxiosError] also carries [error.response?.status]. *)
Inductive exn : Type :=
| Error (msg : string)
| TypeError (msg : string)
| ReferenceError (msg : string)
| AxiosError (msg : string) (status : option Z).

Definition message (e : exn) : string :=
  match e with
  | Error m | TypeError m | ReferenceError m | AxiosError m _ => m
  end.

(** [error.response?.status] *)
Definition response_status (e : exn) : option Z :=
  match e with
  | AxiosError _ st => st
  | _ => None
  end.

Inductive result (A : Type) : Type :=
| Ok (a : A)
| Throw (e : exn).
Arguments Ok {A} a.
Arguments Throw {A} e.

Definition rbind {A B} (r : result A) (k : A -> result B) : result B :=
  match r with
  | Ok a => k a
  | Throw e => Throw e
  end.

(** [try { body } catch (error) { handler }] *)
Definition try_catch {A} (body : result A) (handler : exn -> result A)
  : result A :=
  match body with
  | Ok a => Ok a
  | Throw e => handler e
  end.

(** State and exceptions: a computation over a mutable store [St]. *)
Definition M (St A : Type) : Type := St -> result A * St.

Definition ret {St A} (a : A) : M St A := fun s => (Ok a, s).
Definition throw {St A} (e : exn) : M St A := fun s => (Throw e, s).
Definition bind {St A B} (m : M St A) (k : A -> M St B) : M St B :=
  fun s => match m s with
           | (Ok a, s') => k a s'
           | (Throw e, s') => (Throw e, s')
           end.
(** [try]/[catch] around stateful code: writes made before the throw stay. *)
Definition try_catchM {St A} (body : M St A) (handler : exn -> M St A)
  : M St A :=
  fun s => match body s with
           | (Ok a, s') => (Ok a, s')
           | (Throw e, s') => handler e s'
           end.

(** [Boolean(v)], also the test of [if (v)], [!v] and [v || d]. *)
Definition truthy (v : jsval) : bool :=
  match v with
  | JUndefined | JNull => false
  | JBool b => b
  | JNum n => negb (n =? 0)
  | JStr s => negb (String.eqb s "")
  | JArray _ | JObject _ => true
  end.

Definition typeof (v : jsval) : string :=
  match v with
  | JUndefined => "undefined"
  | JNull => "object"
  | JBool _ => "boolean"
  | JNum _ => "number"
  | JStr _ => "string"
  | JArray _ | JObject _ => "object"
  end.

(** [Array.prototype.includes] on an array of strings *)
Definition includes (l : list string) (x : string) : bool :=
  existsb (String.eqb x) l.

(** The property key of array index [i]. *)
Definition index_key (i : nat) : string :=
  NilZero.string_of_uint (Nat.to_uint i).

Fixpoint indexed_from (i : nat) (items : list jsval) : list (string * jsval) :=
  match items with
  | [] => []
  | v :: rest => (index_key i, v) :: indexed_from (S i) rest
  end.

(** [Object.entries(v)] for an object or an array. *)
Definition entries (v : jsval) : list (string * jsval) :=
  match v with
  | JObject fields => fields
  | JArray items => indexed_from 0 items
  | _ => []
  end.

(** [`${n}`] for an integral number *)
Definition show_Z (n : Z) : string := NilZero.string_of_int (Z.to_int n).

(** A present string that is not empty: the strings [if (s)] accepts. *)
Definition nonempty (s : option string) : bool :=
  match s with
  | Some x => negb (String.eqb x "")
  | None => false
  end.

(** [String.prototype.toUpperCase] on the ASCII letters *)
Definition upper_ascii (c : ascii) : ascii :=
  let n := nat_of_ascii c in
  if ((97 <=? n) && (n <=? 122))%nat then ascii_of_nat (n - 32) else c.

Fixpoint toUpperCase (s : string) : string :=
  match s with
  | EmptyString => EmptyString
  | String c rest => String (upper_ascii c) (toUpperCase rest)
  end.

(** [o[k] = v] on the properties of an object, in their order *)
Fixpoint obj_set {A} (k : string) (v : A) (o : list (string * A))
  : list (string * A) :=
  match o with
  | [] => [(k, v)]
  | (k', v') :: rest =>
      if String.eqb k' k then (k', v) :: rest else (k', v') :: obj_set k v rest
  end.

(** [{ ...base, ...extra }] *)
Definition spread {A} (base extra : list (string * A)) : list (string * A) :=
  fold_left (fun o kv => obj_set (fst kv) (snd kv) o) extra base.

End Js.

Notation "'let*' x ':=' m 'in' k" := (Js.rbind m (fun x => k))
  (at level 10, x name, m at level 100, k at level 200).
Notation "'do*' x '<-' m ';' k" := (Js.bind m (fun x => k))
  (at level 10, x name, m at level 100, k at level 200).

(** ** Rules (rows of the rules table, conditions and actions parsed) *)

Module Rules.
Import Js.

(** An action descriptor.  A field is [None] when the property is absent
    ([undefined]); a present field has the type [validateAction] expects of
    it.
    [transform] is the function [transformData] applies to the input (for an
    object of dot-paths, the function that reads each path); it may throw. *)
Record Action : Type := {
  type : option string;
  url : option string;
  method : option string;
  headers : option (list (string * string));
  timeout : option Z;
  retries : option Z;
  transform : option (jsval -> result jsval);
  includeMetadata : option bool;
  action_id : option string
}.

(** [action.type === t] *)
Definition type_is (action : Action) (t : string) : bool :=
  match type action with
  | Some t' => String.eqb t' t
  | None => false
  end.

Record Rule : Type := {
  id : string;
  name : string;
  conditions : jsval;
  actions : list Action;
  schedule : option string;
  scheduledInput : option (list (string * jsval))
}.

End Rules.

(** ** server/services/evaluator.js *)

Module Evaluator.
Import Js Rules.

(** The identity of a node of a condition tree: the child indices that lead
    to it from the root.  In a tree two nodes are the same object exactly when
    they are at the same place. *)
Definition node_id : Type := list nat.

Definition seen_has (seen : list node_id) (n : node_id) : bool :=
  existsb (fun m => bool_decide (m = n)) seen.

(** The loop [for (const value of Object.values(obj))] of
    [checkCircularReferences]: [checks] are the recursive calls on the values
    in order, the i-th value being the node [self ++ [i]]. *)
Fixpoint check_values (self : node_id)
    (checks : list (node_id -> list node_id -> result (list node_id)))
    (i : nat) (seen : list node_id) : result (list node_id) :=
  match checks with
  | [] => Ok seen
  | check :: rest =>
      let* seen' := check (self ++ [i]) seen in
      check_values self rest (S i) seen'
  end.

(** [checkCircularReferences(obj, seen)]: [seen] is the one WeakSet all the
    recursive calls share, so the set after the call is returned.  [self] is
    the identity of [obj]. *)
Fixpoint checkCircularReferences (obj : jsval) (self : node_id)
    (seen : list node_id) : result (list node_id) :=
  match obj with
  | JArray items =>
      if seen_has seen self
      then Throw (Error "Circular reference detected in condition")
      else check_values self (map checkCircularReferences items)
             O (self :: seen)
  | JObject fields =>
      if seen_has seen self
      then Throw (Error "Circular reference detected in condition")
      else check_values self
             (map (fun kv => checkCircularReferences (snd kv)) fields)
             O (self :: seen)
  | _ => Ok seen
  end.

Definition validOperators : list string :=
  [ "=="; "==="; "!="; "!=="; "<"; "<="; ">"; ">=";
    "and"; "or"; "not"; "in"; "!in";
    "var"; "missing"; "missing_some";
    "cat"; "substr"; "log"; "log10";
    "abs"; "ceil"; "floor"; "round";
    "max"; "min"; "+"; "-"; "*"; "/"; "%";
    "merge"; "all"; "none"; "some";
    "if"; "?:"; "map"; "reduce"; "filter" ].

(** [validateOperatorArguments(operator, args)] *)
Definition validateOperatorArguments (operator : string) (args : jsval)
  : result unit :=
  match args with
  | JArray args =>
      if includes ["=="; "==="; "!="; "!=="; "<"; "<="; ">"; ">="] operator then
        if negb (length args =? 2)%nat
        then Throw (Error ("Comparison operator '" +:+ operator +:+
                           "' requires exactly 2 arguments"))
        else Ok tt
      else if includes ["and"; "or"] operator then
        if (length args <? 2)%nat
        then Throw (Error ("Logical operator '" +:+ operator +:+
                           "' requires at least 2 arguments"))
        else Ok tt
      else if String.eqb operator "not" then
        if negb (length args =? 1)%nat
        then Throw (Error "Logical operator 'not' requires exactly 1 argument")
        else Ok tt
      else if String.eqb operator "var" then
        if negb (length args =? 1)%nat
           || negb (String.eqb (typeof (nth O args JUndefined)) "string")
        then Throw (Error "Operator 'var' requires exactly 1 string argument")
        else Ok tt
      else if includes ["in"; "!in"] operator then
        if negb (length args =? 2)%nat
        then Throw (Error ("Membership operator '" +:+ operator +:+
                           "' requires exactly 2 arguments"))
        else Ok tt
      else Ok tt
  | _ =>
      Throw (Error ("Operator '" +:+ operator +:+
                    "' requires an array of arguments"))
  end.

(** The body of the loop of [validateJsonLogicOperators] for one entry;
    [recur] is the recursive call. *)
Definition validate_entry (recur : jsval -> result unit)
    (key : string) (value : jsval) : result unit :=
  if includes validOperators key then
    validateOperatorArguments key value
  else if negb (String.eqb key "var")
          && String.eqb (typeof value) "object"
          && negb (match value with JNull => true | _ => false end)
  then recur value
  else Ok tt.

(** [validateJsonLogicOperators(condition)]: the loop over
    [Object.entries(condition)].  An array's entries are its items under
    their index keys. *)
Fixpoint validateJsonLogicOperators (condition : jsval) : result unit :=
  match condition with
  | JObject fields =>
      (fix loop (es : list (string * jsval)) : result unit :=
         match es with
         | [] => Ok tt
         | (key, value) :: rest =>
             let* _ := validate_entry validateJsonLogicOperators key value in
             loop rest
         end) fields
  | JArray items =>
      (fix loop (i : nat) (vs : list jsval) : result unit :=
         match vs with
         | [] => Ok tt
         | value :: rest =>
             let* _ := validate_entry validateJsonLogicOperators
                         (index_key i) value in
             loop (S i) rest
         end) O items
  | _ => Ok tt
  end.

(** [validateCondition(condition)] *)
Definition validateCondition (condition : jsval) : result unit :=
  if negb (truthy condition) || negb (String.eqb (typeof condition) "object")
  then Throw (Error "Condition must be a valid JSON object")
  else
    let* _ := checkCircularReferences condition [] [] in
    validateJsonLogicOperators condition.

(** [preprocessData(data)] *)
Definition preprocessData (data : jsval) : jsval :=
  if negb (truthy data) || negb (String.eqb (typeof data) "object")
  then JObject []
  else JObject (map (fun kv => match snd kv with
                               | JUndefined => (fst kv, JNull)
                               | _ => kv
                               end) (entries data)).

(** One element of the array [evaluateRules] returns. *)
Record Evaluation : Type := {
  ruleId : string;
  ruleName : string;
  matched : bool;
  error : option string;
  ev_conditions : jsval;
  ev_actions : list Action
}.

Section WithJsonLogic.

(** [jsonLogic.apply(condition, data)] of json-logic-js: a value, or a throw. *)
Variable jsonLogic_apply : jsval -> jsval -> result jsval.

(** [evaluateRule(condition, data, context)]; [context] only feeds the log. *)
Definition evaluateRule (condition data : jsval) : result bool :=
  try_catch
    (let* _ := validateCondition condition in
     let processedData := preprocessData data in
     let* result := jsonLogic_apply condition processedData in
     Ok (truthy result))
    (fun error =>
       (* Return false for invalid conditions to prevent false positives *)
       Ok false).

(** The body of the loop of [evaluateRules] for one rule. *)
Definition evaluateRules_step (rule : Rule) (data : jsval)
  : result Evaluation :=
  try_catch
    (let* matched := evaluateRule (conditions rule) data in
     Ok {| ruleId := id rule; ruleName := name rule; matched := matched;
           error := None;
           ev_conditions := conditions rule; ev_actions := actions rule |})
    (fun error =>
       Ok {| ruleId := id rule; ruleName := name rule; matched := false;
             error := Some (message error);
             ev_conditions := conditions rule; ev_actions := actions rule |}).

(** [evaluateRules(rules, data, context)] *)
Fixpoint evaluateRules (rules : list Rule) (data : jsval)
  : result (list Evaluation) :=
  match rules with
  | [] => Ok []
  | rule :: rest =>
      let* entry := evaluateRules_step rule data in
      let* results := evaluateRules rest data in
      Ok (entry :: results)
  end.

End WithJsonLogic.

End Evaluator.

(** ** The configuration module ([require('../config')]) *)

Module Config.

Record Config : Type := {
  webhookTimeoutMs : Z;
  webhookMaxRetries : Z;
  cronEnabled : bool
}.

(** The values when the environment sets none of the variables. *)
Definition defaults : Config :=
  {| webhookTimeoutMs := 10000; webhookMaxRetries := 3; cronEnabled := true |}.

End Config.

(** ** server/services/executor.js *)

Module Executor.
Import Js Rules Config.

(** The [context] argument, as far as the executor reads it. *)
Record Context : Type := {
  event : option string;
  ruleId : option string
}.

Record Metadata : Type := {
  source : string;
  version : string;
  actionId : string
}.

(** The request body, without its timestamp. *)
Record Payload : Type := {
  payload_data : jsval;
  metadata : option Metadata
}.

Record RequestConfig : Type := {
  rq_method : string;
  rq_url : string;
  rq_timeout : Z;
  rq_headers : list (string * string);
  rq_data : Payload
}.

Record Response : Type := {
  status : Z;
  statusText : string;
  data : jsval
}.

(** What [executeActions] returns per action: the success object of
    [executeWebhook] or the failure object of [executeActions]. *)
Record ActionResult : Type := {
  success : bool;
  action : Action;
  response : option Response;
  attempt : option Z;
  error : option string
}.

(** What the executor does to the outside: the requests it has issued and the
    back-off delays it has slept, oldest first. *)
Record World : Type := {
  requests : list RequestConfig;
  sleeps : list Z
}.

Definition no_effects : World := {| requests := []; sleeps := [] |}.

(** The world after one more request. *)
Definition issued (requestConfig : RequestConfig) (w : World) : World :=
  {| requests := requests w ++ [requestConfig]; sleeps := sleeps w |}.

(** With axios's default [validateStatus], a reply with status [s] resolves
    when [200 <= s < 300] and rejects with [error.response.status = s]
    otherwise. *)
Definition reply (s : Z) : result Response :=
  if (200 <=? s) && (s <? 300)
  then Ok {| status := s; statusText := ""; data := JNull |}
  else Throw (AxiosError ("Request failed with status code " +:+ show_Z s)
                         (Some s)).

(** [prepareWebhookData(data, action)] *)
Definition prepareWebhookData (data : jsval) (action : Action) : Payload :=
  {| payload_data :=
       match transform action with
       | Some f =>
           match f data with
           | Ok transformed => transformed
           | Throw _ =>
               (* Continue with original data if transformation fails *)
               data
           end
       | None => data
       end;
     metadata :=
       match includeMetadata action with
       | Some false => None
       | _ => Some {| source := "workflow-guard"; version := "1.0.0";
                      actionId := if nonempty (action_id action)
                                  then default "" (action_id action)
                                  else "unknown" |}
       end |}.

(** [Math.min(1000 * Math.pow(2, attempt - 1), 10000)] *)
Definition delay (attempt : Z) : Z := Z.min (1000 * 2 ^ (attempt - 1)) 10000.

Inductive control : Type := Continue | Break.

(** How one iteration of the retry loop ends. *)
Inductive iteration : Type :=
| Returned (r : ActionResult)
| Caught (error : exn) (c : control).

Section WithTransport.

(** [axios(requestConfig)]: the outcome of the n-th request the process
    issues (counting from 0), a response or a rejection. *)
Variable axios : nat -> RequestConfig -> result Response.
Variable config : Config.
(** [new URL(string)] succeeds. *)
Variable isValidUrl : string -> bool.

Definition call_axios (requestConfig : RequestConfig) : M World Response :=
  fun w => (axios (length (requests w)) requestConfig, issued requestConfig w).

(** [await this.sleep(ms)] *)
Definition sleep (ms : Z) : M World unit :=
  fun w => (Ok tt, {| requests := requests w; sleeps := sleeps w ++ [ms] |}).

(** The name [startTime] where the catch block of the retry loop reads it.
    [const startTime] is declared inside the [try] block, so it is not in
    scope in the [catch] block, and no enclosing scope declares the name:
    evaluating it throws a ReferenceError. *)
Definition startTime_in_catch : M World Z :=
  throw (ReferenceError "startTime is not defined").

(** The catch block of the retry loop ([lastError = error] is kept by the
    loop). *)
Definition on_attempt_error (error : exn) (attempt retries : Z)
  : M World control :=
  do* startTime <- startTime_in_catch;
  (* Don't retry on client errors (4xx) except 429 (rate limit) *)
  if match response_status error with
     | Some st => (400 <=? st) && (st <? 500) && negb (st =? 429)
     | None => false
     end
  then ret Break
  else
    (* Wait before retry (exponential backoff) *)
    do* _ <- (if attempt <? retries then sleep (delay attempt) else ret tt);
    ret Continue.

(** The statement after the retry loop. *)
Definition fail_after_loop (retries : Z) (lastError : option exn)
  : M World ActionResult :=
  match lastError with
  | Some e =>
      throw (Error ("Webhook execution failed after " +:+ show_Z retries +:+
                    " attempts: " +:+ message e))
  | None =>
      throw (TypeError
               "Cannot read properties of undefined (reading 'message')")
  end.

(** [for (let attempt = 1; attempt <= retries; attempt++)]: [remaining]
    counts the iterations left, [retries - attempt + 1], so the loop
    condition holds exactly when it is not zero. *)
Fixpoint retry_loop (action : Action) (requestConfig : RequestConfig)
    (retries : Z) (remaining : nat) (attempt : Z) (lastError : option exn)
  : M World ActionResult :=
  match remaining with
  | O => fail_after_loop retries lastError
  | S remaining' =>
      do* step <-
        try_catchM
          (do* response <- call_axios requestConfig;
           ret (Returned {| success := true; action := action;
                            response := Some response;
                            attempt := Some attempt; error := None |}))
          (fun error =>
             do* c <- on_attempt_error error attempt retries;
             ret (Caught error c));
      match step with
      | Returned r => ret r
      | Caught error Break => fail_after_loop retries (Some error)
      | Caught error Continue =>
          retry_loop action requestConfig retries remaining' (attempt + 1)
            (Some error)
      end
  end.

(** [retries = config.webhookMaxRetries] of the destructuring in
    [executeWebhook]: the default stands in for an absent field only. *)
Definition retries_of (action : Action) : Z :=
  default (webhookMaxRetries config) (retries action).

(** The [requestConfig] object [executeWebhook] builds. *)
Definition requestConfig_of (action : Action) (data : jsval)
    (context : Context) : RequestConfig :=
  let method := default "POST" (method action) in
  let headers := default [] (headers action) in
  let requestTimeout :=
    match timeout action with
    | Some t => if t =? 0 then webhookTimeoutMs config else t
    | None => webhookTimeoutMs config
    end in
  {| rq_method := toUpperCase method;
     rq_url := default "" (url action);
     rq_timeout := requestTimeout;
     rq_headers :=
       spread
         [ ("Content-Type", "application/json");
           ("User-Agent", "WorkflowGuard/1.0");
           ("X-Workflow-Guard-Event",
            if nonempty (event context) then default "" (event context)
            else "unknown");
           ("X-Workflow-Guard-Rule",
            if nonempty (ruleId context) then default "" (ruleId context)
            else "unknown") ]
         headers;
     rq_data := prepareWebhookData data action |}.

(** [executeWebhook(action, data, context)] *)
Definition executeWebhook (action : Action) (data : jsval) (context : Context)
  : M World ActionResult :=
  let retries := retries_of action in
  if negb (nonempty (url action)) then throw (Error "Webhook URL is required")
  else
    let requestConfig := requestConfig_of action data context in
    retry_loop action requestConfig retries (Z.to_nat retries) 1 None.

(** [executeAction(action, data, context)] *)
Definition executeAction (action : Action) (data : jsval) (context : Context)
  : M World ActionResult :=
  try_catchM
    (if type_is action "webhook" then executeWebhook action data context
     else throw (Error ("Unsupported action type: " +:+
                        default "undefined" (type action))))
    (fun error => throw error).

(** The object [executeActions] pushes when [executeAction] throws. *)
Definition failure (action : Action) (error : exn) : ActionResult :=
  {| success := false; action := action; response := None; attempt := None;
     error := Some (message error) |}.

(** [executeActions(actions, data, context)] *)
Fixpoint executeActions (actions : list Action) (data : jsval)
    (context : Context) : M World (list ActionResult) :=
  match actions with
  | [] => ret []
  | action :: rest =>
      do* result <-
        try_catchM (executeAction action data context)
                   (fun error => ret (failure action error));
      do* results <- executeActions rest data context;
      ret (result :: results)
  end.

(** [validateAction(action)] *)
Definition validateAction (action : Action) : list string :=
  let errors : list string := [] in
  let errors :=
    if negb (nonempty (type action))
    then errors ++ ["Action type is required"] else errors in
  if type_is action "webhook" then
    let errors :=
      if negb (nonempty (url action))
      then errors ++ ["Webhook URL is required"]
      else if negb (isValidUrl (default "" (url action)))
      then errors ++ ["Invalid webhook URL"]
      else errors in
    let errors :=
      if nonempty (method action)
         && negb (includes ["GET"; "POST"; "PUT"; "PATCH"; "DELETE"]
                    (toUpperCase (default "" (method action))))
      then errors ++ ["Invalid HTTP method"] else errors in
    let errors :=
      match timeout action with
      | Some t =>
          if negb (t =? 0) && ((t <? 1000) || (30000 <? t))
          then errors ++ ["Timeout must be a number between 1000 and 30000 ms"]
          else errors
      | None => errors
      end in
    let errors :=
      match retries action with
      | Some r =>
          if negb (r =? 0) && ((r <? 0) || (10 <? r))
          then errors ++ ["Retries must be a number between 0 and 10"]
          else errors
      | None => errors
      end in
    errors
  else errors.

End WithTransport.

End Executor.

(** ** server/services/scheduler.js *)

Module Scheduler.
Import Js Rules Config.

(** A node-cron task: the object [cron.schedule] returns.  [running] is the
    state node-cron keeps inside the task: while it is set node-cron calls
    the task's function, here [executeScheduledRule(task_rule)], at every
    instant its expression matches; [start()] sets it and [stop()] clears
    it.  The object shows that state to no caller: it has the methods
    [start], [stop] and [now], no property [running] and no method
    [nextDate]. *)
Record Task : Type := {
  expression : string;
  task_rule : option Rule;
  running : bool
}.

(** The scheduler object.  [tasks] is the heap of the task objects created so
    far; a task is referred to by its index there.  [jobs] is the Map from
    rule id to task; the order in which the Map iterates is not kept. *)
Record State : Type := {
  jobs : gmap string nat;
  isRunning : bool;
  tasks : list Task
}.

(** The state the constructor leaves. *)
Definition initial : State :=
  {| jobs := ∅; isRunning := false; tasks := [] |}.

(** One element of the array [getJobsStatus] fills: [running] holds what
    reading [job.running] gave, [nextDate] what [job.nextDate()] returned (an
    instant, milliseconds since the epoch). *)
Record JobStatus : Type := {
  ruleId : string;
  job_running : jsval;
  job_nextDate : Z
}.

(** What [testCronExpression] returns: [{ valid: true, nextExecutions }] or
    [{ valid: false, error }]. *)
Inductive CronTest : Type :=
| Valid (nextExecutions : list Z)
| Invalid (error : string).

Definition set_running (b : bool) (t : Task) : Task :=
  {| expression := expression t; task_rule := task_rule t; running := b |}.

(** [job.stop()] and [job.start()] *)
Definition task_stop (job : nat) : M State unit :=
  fun s => (Ok tt, {| jobs := jobs s; isRunning := isRunning s;
                      tasks := alter (set_running false) job (tasks s) |}).

Definition task_start (job : nat) : M State unit :=
  fun s => (Ok tt, {| jobs := jobs s; isRunning := isRunning s;
                      tasks := alter (set_running true) job (tasks s) |}).

(** [job.running]: the task object has no such property, so the read gives
    [undefined]. *)
Definition task_running (job : nat) : M State jsval := ret JUndefined.

(** [job.nextDate()]: the task object has no such method, so the call
    throws. *)
Definition task_nextDate (job : nat) : M State Z :=
  throw (TypeError "job.nextDate is not a function").

(** [cron.schedule(expression, func, { scheduled: false })]: a new task, not
    started.  [rule] is the rule the task's function runs, if any. *)
Definition cron_schedule (expression : string) (rule : option Rule)
  : M State nat :=
  fun s => (Ok (length (tasks s)),
            {| jobs := jobs s; isRunning := isRunning s;
               tasks := tasks s ++ [ {| expression := expression;
                                        task_rule := rule;
                                        running := false |} ] |}).

(** [this.jobs.set(ruleId, job)] and [this.jobs.delete(ruleId)] *)
Definition jobs_set (ruleId : string) (job : nat) : M State unit :=
  fun s => (Ok tt, {| jobs := <[ruleId := job]> (jobs s);
                      isRunning := isRunning s; tasks := tasks s |}).

Definition jobs_delete (ruleId : string) : M State unit :=
  fun s => (Ok tt, {| jobs := delete ruleId (jobs s);
                      isRunning := isRunning s; tasks := tasks s |}).

(** Node-cron runs the function of task [job] at a matching instant. *)
Definition fires (s : State) (job : nat) : bool :=
  match tasks s !! job with
  | Some t => running t
  | None => false
  end.

Section WithCron.

(** [cron.validate(expression)] *)
Variable cron_validate : string -> bool.
Variable config : Config.
(** [ruleService.getScheduledRules()] *)
Variable getScheduledRules : result (list Rule).

(** [scheduleRule(rule)] *)
Definition scheduleRule (rule : Rule) : M State unit :=
  if negb (nonempty (schedule rule)) then ret tt
  else
    let schedule := default "" (schedule rule) in
    (* Stop existing job if it exists *)
    do* _ <- (fun s => match jobs s !! id rule with
                       | Some job => task_stop job s
                       | None => ret tt s
                       end);
    try_catchM
      (if negb (cron_validate schedule)
       then throw (Error ("Invalid cron expression: " +:+ schedule))
       else
         do* job <- cron_schedule schedule (Some rule);
         do* _ <- task_start job;
         jobs_set (id rule) job)
      (fun error => ret tt).

(** [unscheduleRule(ruleId)] *)
Definition unscheduleRule (ruleId : string) : M State unit :=
  fun s => match jobs s !! ruleId with
           | Some job => (do* _ <- task_stop job; jobs_delete ruleId) s
           | None => ret tt s
           end.

(** [stop()] *)
Definition stop : M State unit :=
  fun s =>
    if negb (isRunning s) then ret tt s
    else
      (Ok tt,
       {| jobs := ∅; isRunning := false;
          tasks := foldr (fun entry ts =>
                            alter (set_running false) (snd entry) ts)
                         (tasks s) (map_to_list (jobs s)) |}).

(** The loop of [loadScheduledRules] *)
Fixpoint scheduleRules (rules : list Rule) : M State unit :=
  match rules with
  | [] => ret tt
  | rule :: rest => do* _ <- scheduleRule rule; scheduleRules rest
  end.

(** [loadScheduledRules()] *)
Definition loadScheduledRules : M State unit :=
  try_catchM
    (do* rules <- (fun s => (getScheduledRules, s));
     scheduleRules rules)
    (fun error => throw error).

(** [start()] *)
Definition start : M State unit :=
  fun s =>
    if isRunning s then ret tt s
    else if negb (cronEnabled config) then ret tt s
    else
      try_catchM
        (do* _ <- loadScheduledRules;
         fun s' => (Ok tt, {| jobs := jobs s'; isRunning := true;
                              tasks := tasks s' |}))
        (fun error => throw error) s.

(** [reload()] *)
Definition reload : M State unit :=
  do* _ <- stop; start.

(** [updateScheduledRule(rule)] *)
Definition updateScheduledRule (rule : Rule) : M State unit :=
  if nonempty (schedule rule) then scheduleRule rule
  else unscheduleRule (id rule).

(** The loop of [getJobsStatus] over the entries of the table, with the
    array it fills. *)
Fixpoint status_entries (entries : list (string * nat))
    (status : list JobStatus) : M State (list JobStatus) :=
  match entries with
  | [] => ret status
  | (ruleId, job) :: rest =>
      do* running <- task_running job;
      do* nextDate <- task_nextDate job;
      status_entries rest
        (status ++ [ {| ruleId := ruleId; job_running := running;
                        job_nextDate := nextDate |} ])
  end.

(** [getJobsStatus()] *)
Definition getJobsStatus : M State (list JobStatus) :=
  fun s => status_entries (map_to_list (jobs s)) [] s.

(** The loop of [testCronExpression] that collects [n] dates. *)
Fixpoint next_dates (job : nat) (n : nat) (nextDates : list Z)
  : M State (list Z) :=
  match n with
  | O => ret nextDates
  | S n' =>
      do* nextDate <- task_nextDate job;
      next_dates job n' (nextDates ++ [nextDate])
  end.

(** [testCronExpression(expression)] *)
Definition testCronExpression (expression : string) : M State CronTest :=
  try_catchM
    (if negb (cron_validate expression)
     then ret (Invalid "Invalid cron expression format")
     else
       (* Get next 5 execution times *)
       do* job <- cron_schedule expression None;
       do* nextDates <- next_dates job 5 [];
       do* _ <- task_stop job;
       ret (Valid nextDates))
    (fun error => ret (Invalid (message error))).

End WithCron.

End Scheduler.

(** ** Vocabulary of the statements *)

Module EvaluatorVocabulary.
Import Js Rules Evaluator.

(** The argument contract of the operators the specification names:
    comparisons take exactly two arguments, [and]/[or] at least two, [not]
    exactly one, [var] exactly one string. *)
Definition contract_violated (operator : string) (args : list jsval) : bool :=
  if includes ["=="; "==="; "!="; "!=="; "<"; "<="; ">"; ">="] operator
  then negb (length args =? 2)%nat
  else if includes ["and"; "or"] operator then (length args <? 2)%nat
  else if String.eqb operator "not" then negb (length args =? 1)%nat
  else if String.eqb operator "var"
  then match args with
       | [JStr _] => false
       | _ => true
       end
  else false.

(** [occurs operator value c]: somewhere in [c], at any depth, an object has
    the key [operator] with the value [value]. *)
Inductive occurs (operator : string) (value : jsval) : jsval -> Prop :=
| occurs_here c :
    In (operator, value) (entries c) -> occurs operator value c
| occurs_below c key sub :
    In (key, sub) (entries c) -> occurs operator value sub ->
    occurs operator value c.

(** [outside_arguments operator value c]: the same, and no key on the way
    down from [c] to that object is a recognized operator: the occurrence is
    not inside the argument list of a recognized operator. *)
Inductive outside_arguments (operator : string) (value : jsval)
  : jsval -> Prop :=
| outside_here c :
    In (operator, value) (entries c) -> outside_arguments operator value c
| outside_below c key sub :
    In (key, sub) (entries c) -> includes validOperators key = false ->
    outside_arguments operator value sub ->
    outside_arguments operator value c.

(** An error that [validateOperatorArguments] throws. *)
Definition invalid_arguments (e : exn) : Prop :=
  exists operator args, validateOperatorArguments operator args = Throw e.

(** No node already seen lies at or below [self]. *)
Definition unvisited (self : node_id) (seen : list node_id) : Prop :=
  forall m, In m seen -> ~ self `prefix_of` m.

(** A check that passes on unvisited nodes and adds only nodes at or below
    the one it is given. *)
Definition passes
    (check : node_id -> list node_id -> result (list node_id)) : Prop :=
  forall self seen, unvisited self seen ->
    exists seen', check self seen = Ok seen' /\
      forall m, In m seen' -> In m seen \/ self `prefix_of` m.

(** The loop of [validateJsonLogicOperators] over a list of entries. *)
Fixpoint validate_entries (es : list (string * jsval)) : result unit :=
  match es with
  | [] => Ok tt
  | (key, value) :: rest =>
      let* _ := validate_entry validateJsonLogicOperators key value in
      validate_entries rest
  end.

(** The entry [evaluateRules] computes for one rule. *)
Definition entry_of (jsonLogic_apply : jsval -> jsval -> result jsval)
    (data : jsval) (rule : Rule) : Evaluation :=
  {| ruleId := id rule; ruleName := name rule;
     matched := match evaluateRule jsonLogic_apply (conditions rule) data with
                | Ok b => b
                | Throw _ => false
                end;
     error := None;
     ev_conditions := conditions rule; ev_actions := actions rule |}.

(** [{"==": [1]}]: a comparison with one argument *)
Definition short_comparison : jsval :=
  JObject [("==", JArray [JNum 1])].

(** [{"and": [{"==": [1]}, true]}]: the same comparison as an argument of
    [and] *)
Definition nested_short_comparison : jsval :=
  JObject [("and", JArray [short_comparison; JBool true])].

(** [{"meta": {"not": []}}]: [not] without arguments under a key that is no
    operator *)
Definition not_under_plain_key : jsval :=
  JObject [("meta", JObject [("not", JArray [])])].

(** The condition of the documented example rule:
    [{"and": [{">": [{"var": "amount"}, 1000]},
              {"==": [{"var": "currency"}, "USD"]}]}] *)
Definition documented_condition : jsval :=
  JObject
    [("and",
      JArray
        [ JObject [(">", JArray [JObject [("var", JStr "amount")]; JNum 1000])];
          JObject [("==", JArray [JObject [("var", JStr "currency")];
                                  JStr "USD"])] ])].

(** A rule whose condition is [short_comparison]. *)
Definition malformed_rule : Rule :=
  {| id := "rule-1"; name := "malformed"; conditions := short_comparison;
     actions := []; schedule := None; scheduledInput := None |}.

(** A stand-in for [jsonLogic.apply] that answers [true] to everything. *)
Definition always_true (condition data : jsval) : result jsval :=
  Ok (JBool true).

End EvaluatorVocabulary.

Module ExecutorVocabulary.
Import Js Rules Config Executor.

(** One iteration of the loop of [executeActions]. *)
Definition run_action (axios : nat -> RequestConfig -> result Response)
    (config : Config) (action : Action) (data : jsval) (context : Context)
  : M World ActionResult :=
  try_catchM (executeAction axios config action data context)
             (fun error => ret (failure action error)).

(** The number of requests issued between two worlds. *)
Definition attempts_between (w w' : World) : nat :=
  (length (requests w') - length (requests w))%nat.

(** A webhook action with only its url set. *)
Definition hook : Action :=
  {| type := Some "webhook"; url := Some "https://hooks.example/notify";
     method := None; headers := None; timeout := None; retries := None;
     transform := None; includeMetadata := None; action_id := None |}.

(** [{ ...action, retries: n }] *)
Definition with_retries (n : Z) (a : Action) : Action :=
  {| type := type a; url := url a; method := method a; headers := headers a;
     timeout := timeout a; retries := Some n; transform := transform a;
     includeMetadata := includeMetadata a; action_id := action_id a |}.

(** An action of a type the executor does not know. *)
Definition email : Action :=
  {| type := Some "email"; url := None;
     method := None; headers := None; timeout := None; retries := None;
     transform := None; includeMetadata := None; action_id := None |}.

Definition manual : Context :=
  {| event := Some "order.created"; ruleId := None |}.

(** A target that answers every request with the status [s]. *)
Definition always (s : Z) : nat -> RequestConfig -> result Response :=
  fun _ _ => reply s.

(** A target that cannot be reached. *)
Definition unreachable : nat -> RequestConfig -> result Response :=
  fun _ _ => Throw (AxiosError "connect ECONNREFUSED" None).

(** A target that answers 500 to the first three requests and 200 from then
    on. *)
Definition recovers_after_three : nat -> RequestConfig -> result Response :=
  fun n _ => if (n <? 3)%nat then reply 500 else reply 200.

Definition accept_all_urls : string -> bool := fun _ => true.

(** From the world [w] on, the target answers 500 to the next three requests
    and 200 to the one after them. *)
Definition fails_three_times_then_succeeds
    (axios : nat -> RequestConfig -> result Response) (w : World) : Prop :=
  (forall n rc, (length (requests w) <= n < length (requests w) + 3)%nat ->
                axios n rc = reply 500) /\
  (forall rc, axios (length (requests w) + 3)%nat rc = reply 200).

End ExecutorVocabulary.

Module SchedulerVocabulary.
Import Js Rules Config Scheduler.

(** The rule carries a cron expression and [cron.validate] accepts it. *)
Definition valid_schedule (cron_validate : string -> bool) (rule : Rule)
  : Prop :=
  nonempty (schedule rule) = true /\
  cron_validate (default "" (schedule rule)) = true.

(** The rule carries a cron expression and [cron.validate] refuses it. *)
Definition invalid_schedule (cron_validate : string -> bool) (rule : Rule)
  : Prop :=
  nonempty (schedule rule) = true /\
  cron_validate (default "" (schedule rule)) = false.

(** What [getJobsStatus] does when the table holds a job: the error of the
    call [job.nextDate()]. *)
Definition status_failure : exn :=
  TypeError "job.nextDate is not a function".

(** Every started task is the job the table holds for its rule. *)
Definition owns_running (s : State) : Prop :=
  forall job t, tasks s !! job = Some t -> running t = true ->
    exists rule, task_rule t = Some rule /\ jobs s !! id rule = Some job.

(** The state after the step "stop existing job if it exists" of
    [scheduleRule]. *)
Definition stop_existing (rule : Rule) (s : State) : State :=
  match jobs s !! id rule with
  | Some job => {| jobs := jobs s; isRunning := isRunning s;
                   tasks := alter (set_running false) job (tasks s) |}
  | None => s
  end.

(** The state after [cron.schedule(expression, () => {}, { scheduled: false })]
    of [testCronExpression]: one more task, not started, for no rule. *)
Definition with_preview_task (expression : string) (s : State) : State :=
  {| jobs := jobs s; isRunning := isRunning s;
     tasks := tasks s ++ [ {| Scheduler.expression := expression;
                              task_rule := None; running := false |} ] |}.

(** The states the scheduler object can be in: the one its constructor
    leaves and those its methods lead to. *)
Inductive reachable (cron_validate : string -> bool) (config : Config)
    (getScheduledRules : result (list Rule)) : State -> Prop :=
| reach_initial :
    reachable cron_validate config getScheduledRules initial
| reach_scheduleRule s rule :
    reachable cron_validate config getScheduledRules s ->
    reachable cron_validate config getScheduledRules
      (snd (scheduleRule cron_validate rule s))
| reach_unscheduleRule s i :
    reachable cron_validate config getScheduledRules s ->
    reachable cron_validate config getScheduledRules
      (snd (unscheduleRule i s))
| reach_updateScheduledRule s rule :
    reachable cron_validate config getScheduledRules s ->
    reachable cron_validate config getScheduledRules
      (snd (updateScheduledRule cron_validate rule s))
| reach_start s :
    reachable cron_validate config getScheduledRules s ->
    reachable cron_validate config getScheduledRules
      (snd (start cron_validate config getScheduledRules s))
| reach_stop s :
    reachable cron_validate config getScheduledRules s ->
    reachable cron_validate config getScheduledRules (snd (stop s))
| reach_reload s :
    reachable cron_validate config getScheduledRules s ->
    reachable cron_validate config getScheduledRules
      (snd (reload cron_validate config getScheduledRules s))
| reach_getJobsStatus s :
    reachable cron_validate config getScheduledRules s ->
    reachable cron_validate config getScheduledRules (snd (getJobsStatus s))
| reach_testCronExpression s expression :
    reachable cron_validate config getScheduledRules s ->
    reachable cron_validate config getScheduledRules
      (snd (testCronExpression cron_validate expression s)).

(** A validator that accepts the expressions of six fields. *)
Definition six_fields (e : string) : bool :=
  (length (filter (fun c => c = " "%char) (list_ascii_of_string e)) =? 5)%nat.

Definition rule_with (i : string) (sched : string) : Rule :=
  {| id := i; name := "report"; conditions := JObject [];
     actions := []; schedule := Some sched; scheduledInput := None |}.

End SchedulerVocabulary.

(** ** server/services/evaluator.js, the condition tools *)

Module EvaluatorTools.
Import Js Rules Evaluator.

(** What [testConditionSyntax] returns: [{ valid: true }] or
    [{ valid: false, error }]. *)
Inductive SyntaxReport : Type :=
| SyntaxValid
| SyntaxInvalid (error : string).

(** [testConditionSyntax(condition)] *)
Definition testConditionSyntax (condition : jsval) : result SyntaxReport :=
  try_catch
    (let* _ := validateCondition condition in
     Ok SyntaxValid)
    (fun error => Ok (SyntaxInvalid (message error))).

(** Whether a Set that holds [b] already has [a]: primitives are compared by
    value; an object or an array is a node of the tree and is no other
    node. *)
Definition same_value (a b : jsval) : bool :=
  match a, b with
  | JUndefined, JUndefined => true
  | JNull, JNull => true
  | JBool x, JBool y => Bool.eqb x y
  | JNum x, JNum y => x =? y
  | JStr x, JStr y => String.eqb x y
  | _, _ => false
  end.

(** [variables.add(v)]; the Set keeps insertion order. *)
Definition set_add (v : jsval) (variables : list jsval) : list jsval :=
  if existsb (same_value v) variables then variables else variables ++ [v].

(** The body of the loop of [extractVars] for one entry; [recur] is
    [extractVars] with the Set it fills passed along. *)
Definition extract_entry (recur : jsval -> list jsval -> list jsval)
    (key : string) (value : jsval) (variables : list jsval) : list jsval :=
  match value with
  | JArray items =>
      if String.eqb key "var" && (0 <? length items)%nat
      then set_add (nth O items JUndefined) variables
      else fold_left (fun vars item => recur item vars) items variables
  | JObject _ | JNull => recur value variables
  | _ => variables
  end.

(** The closure [extractVars] of [extractVariables] *)
Fixpoint extractVars (obj : jsval) (variables : list jsval) : list jsval :=
  match obj with
  | JObject fields =>
      (fix loop (es : list (string * jsval)) (vars : list jsval)
         : list jsval :=
         match es with
         | [] => vars
         | (key, value) :: rest =>
             loop rest (extract_entry extractVars key value vars)
         end) fields variables
  | JArray items =>
      (fix loop (i : nat) (vs : list jsval) (vars : list jsval)
         : list jsval :=
         match vs with
         | [] => vars
         | value :: rest =>
             loop (S i) rest
               (extract_entry extractVars (index_key i) value vars)
         end) O items variables
  | _ => variables
  end.

(** [extractVariables(condition)]: the Set as an array *)
Definition extractVariables (condition : jsval) : list jsval :=
  extractVars condition [].

(** The loop of [extractVars] over a list of entries. *)
Definition extract_entries (es : list (string * jsval))
    (variables : list jsval) : list jsval :=
  fold_left (fun vars kv => extract_entry extractVars (fst kv) (snd kv) vars)
            es variables.

(** [collected v c]: [v] is the first argument of a [var] entry of [c] whose
    value is an array, and on the way down from [c] to that entry no [var]
    entry with a non-empty array is entered. *)
Inductive collected (v : jsval) : jsval -> Prop :=
| collected_here c rest :
    In ("var", JArray (v :: rest)) (entries c) -> collected v c
| collected_below c key sub :
    In (key, sub) (entries c) ->
    (String.eqb key "var" &&
     match sub with JArray (_ :: _) => true | _ => false end) = false ->
    collected v sub ->
    collected v c.

(** The name a collected variable stands for when it is a string. *)
Definition name_of (v : jsval) : option string :=
  match v with
  | JStr s => Some s
  | _ => None
  end.

(** An object or an array: what passes [!c || typeof c !== 'object']. *)
Definition is_object (c : jsval) : bool :=
  match c with
  | JArray _ | JObject _ => true
  | _ => false
  end.

(** What [preprocessData] does to one entry. *)
Definition null_for_undefined (kv : string * jsval) : string * jsval :=
  match snd kv with
  | JUndefined => (fst kv, JNull)
  | _ => kv
  end.

(** [{"==": [{"var": ["a"]}, {"var": ["a"]}]}] *)
Definition var_twice : jsval :=
  JObject [("==", JArray [ JObject [("var", JArray [JStr "a"])];
                           JObject [("var", JArray [JStr "a"])] ])].

End EvaluatorTools.

(** ** json-logic-js, how [apply] begins *)

Module JsonLogic.
Import Js.

(** [jsonLogic.is_logic(logic)]: an object, not null and no array, with
    exactly one key. *)
Definition is_logic (logic : jsval) : bool :=
  match logic with
  | JObject [_] => true
  | _ => false
  end.

Section WithOperations.

(** What [apply] does with a rule [{ op: values }] on the data: look the
    operation up, evaluate the values and call it; it throws for an
    operation it does not know. *)
Variable operate : string -> jsval -> jsval -> result jsval.

(** [jsonLogic.apply(logic, data)]: an array is applied item by item, and
    what is no rule is data and is returned as it is. *)
Fixpoint apply (logic data : jsval) : result jsval :=
  match logic with
  | JArray items =>
      let* values :=
        (fix map_apply (ls : list jsval) : result (list jsval) :=
           match ls with
           | [] => Ok []
           | l :: rest =>
               let* v := apply l data in
               let* vs := map_apply rest in
               Ok (v :: vs)
           end) items in
      Ok (JArray values)
  | JObject [(op, values)] => operate op values data
  | _ => Ok logic
  end.

End WithOperations.

(** The library with no operation at all: every rule is an "Unrecognized
    operation". *)
Definition no_operations (op : string) (values data : jsval) : result jsval :=
  Throw (Error ("Unrecognized operation " +:+ op)).

End JsonLogic.

(** ** Conditions that validation rejects, and some it does not *)

Module Malformed.
Import Js Rules Evaluator EvaluatorVocabulary EvaluatorTools.

(** What [validateOperatorArguments] refuses as the value of a recognized
    operator: anything that is no array, and an array that violates the
    operator's contract. *)
Definition bad_arguments (operator : string) (value : jsval) : Prop :=
  includes validOperators operator = true /\
  match value with
  | JArray args => contract_violated operator args = true
  | _ => True
  end.

(** A condition validation can see to be malformed: it is no object or
    array, or a recognized operator at a place validation visits (not inside
    the argument list of a recognized operator) has bad arguments. *)
Definition visibly_malformed (c : jsval) : Prop :=
  is_object c = false \/
  exists operator value,
    outside_arguments operator value c /\ bad_arguments operator value.

(** [{"==": [1, 2], "!=": [1, 1]}]: two comparisons in one object, both
    false; which of the two is meant is not said. *)
Definition two_operators : jsval :=
  JObject [("==", JArray [JNum 1; JNum 2]); ("!=", JArray [JNum 1; JNum 1])].

(** A rule with that condition. *)
Definition ambiguous_rule : Rule :=
  {| id := "rule-2"; name := "ambiguous"; conditions := two_operators;
     actions := []; schedule := None; scheduledInput := None |}.

End Malformed.


(** ** Reading objects *)

Module Objects.
Import Js.

(** [o[k]] on the properties of an object: the value of the first property
    named [k], [None] for [undefined]. *)
Fixpoint obj_get {A} (k : string) (o : list (string * A)) : option A :=
  match o with
  | [] => None
  | (k', v) :: rest => if String.eqb k' k then Some v else obj_get k rest
  end.

(** [a ?? b] on lookups *)
Definition or_else {A} (a b : option A) : option A :=
  match a with
  | Some v => Some v
  | None => b
  end.

End Objects.

Module ExecutorTools.
Import Js Rules Config Executor Objects.

(** The headers [executeWebhook] sets when the action has none. *)
Definition default_headers (context : Context) : list (string * string) :=
  [ ("Content-Type", "application/json");
    ("User-Agent", "WorkflowGuard/1.0");
    ("X-Workflow-Guard-Event",
     if nonempty (event context) then default "" (event context)
     else "unknown");
    ("X-Workflow-Guard-Rule",
     if nonempty (ruleId context) then default "" (ruleId context)
     else "unknown") ].

(** The actions [executeAction] hands to [executeWebhook]. *)
Definition webhooks (actions : list Action) : list Action :=
  List.filter (fun a => type_is a "webhook") actions.

(** [{ ...action, headers: h }] and [{ ...action, url: u }] *)
Definition with_headers (h : list (string * string)) (a : Action) : Action :=
  {| type := type a; url := url a; method := method a; headers := Some h;
     timeout := timeout a; retries := retries a; transform := transform a;
     includeMetadata := includeMetadata a; action_id := action_id a |}.

End ExecutorTools.


(** ** server/services/scheduler.js, the job table *)

Module SchedulerTools.
Import Js Rules Config Scheduler SchedulerVocabulary.

(** Every entry of the table refers to a task that exists and that was
    created for a rule of that id. *)
Definition table_valid (s : State) : Prop :=
  forall i job, jobs s !! i = Some job ->
    exists t rule,
      tasks s !! job = Some t /\ task_rule t = Some rule /\ id rule = i.

(** The task [scheduleRule] creates and starts for a rule. *)
Definition task_of (rule : Rule) : Task :=
  {| expression := default "" (schedule rule); task_rule := Some rule;
     running := true |}.

(** A task of the rule id [i] is started. *)
Definition rule_fires (s : State) (i : string) : Prop :=
  exists job t rule,
    tasks s !! job = Some t /\ running t = true /\
    task_rule t = Some rule /\ id rule = i.

(** The configuration with [CRON_ENABLED=false]. *)
Definition disabled : Config :=
  {| webhookTimeoutMs := 10000; webhookMaxRetries := 3;
     cronEnabled := false |}.

Definition five_minute_rule : Rule := rule_with "r1" "0 */5 * * * *".
Definition hourly_rule : Rule := rule_with "r2" "0 0 * * * *".
Definition misspelt_rule : Rule := rule_with "r3" "every day".

(** The scheduler after [scheduleRule(five_minute_rule)]. *)
Definition one_job : State :=
  snd (scheduleRule six_fields five_minute_rule initial).

(** The scheduler after [start()] with one stored rule. *)
Definition started : State :=
  snd (start six_fields defaults (Ok [five_minute_rule]) initial).

End SchedulerTools.


(** ** server/utils/logger.js, the workflow log *)

Module Logger.
Import Js Rules Executor.

(** The values [logWorkflow] hands to [db.run] for one row of
    [workflow_logs]; [log_input] is the value whose JSON text is stored. *)
Record LogRow : Type := {
  log_ruleId : string;
  log_matched : bool;
  log_input : jsval
}.

(** What a run of a rule acts on: the outside of the executor, whether
    [initDB] has set the database handle (and [closeDB] has not cleared it),
    and the rows handed to [db.run] so far, oldest first. *)
Record System : Type := {
  world : World;
  db_open : bool;
  workflow_logs : list LogRow
}.

(** [getDB()] of models/db.js *)
Definition getDB : M System unit :=
  fun s =>
    if db_open s then (Ok tt, s)
    else (Throw (Error "Database not initialized. Call initDB() first."), s).

(** [logWorkflow(ruleId, matched, input)]: three parameters, a fourth
    argument is dropped.  The insert itself is asynchronous and its failure
    only logged. *)
Definition logWorkflow (ruleId : string) (matched : bool) (input : jsval)
  : M System unit :=
  do* _ <- getDB;
  fun s => (Ok tt,
            {| world := world s; db_open := db_open s;
               workflow_logs :=
                 workflow_logs s ++ [ {| log_ruleId := ruleId;
                                         log_matched := matched;
                                         log_input := input |} ] |}).

(** A step of the executor, run on the system. *)
Definition in_world {A : Type} (m : M World A) : M System A :=
  fun s =>
    let '(r, w) := m (world s) in
    (r, {| world := w; db_open := db_open s;
           workflow_logs := workflow_logs s |}).

End Logger.

(** ** server/services/scheduler.js, the run of a scheduled rule *)

Module ScheduledRun.
Import Js Rules Config Evaluator Executor Logger.

(** [generateScheduledInput(rule)]; [timestamp] is
    [new Date().toISOString()]. *)
Definition baseInput (timestamp : string) (rule : Rule)
  : list (string * jsval) :=
  [ ("timestamp", JStr timestamp);
    ("trigger", JStr "scheduled");
    ("ruleId", JStr (id rule));
    ("ruleName", JStr (name rule)) ].

Definition generateScheduledInput (timestamp : string) (rule : Rule)
  : jsval :=
  match scheduledInput rule with
  | Some custom => JObject (spread (baseInput timestamp rule) custom)
  | None => JObject (baseInput timestamp rule)
  end.

Section WithServices.

Variable jsonLogic_apply : jsval -> jsval -> result jsval.
Variable axios : nat -> RequestConfig -> result Response.
Variable config : Config.

(** [executeScheduledRule(rule)] *)
Definition executeScheduledRule (timestamp : string) (rule : Rule)
  : M System unit :=
  try_catchM
    (let inputData := generateScheduledInput timestamp rule in
     (* Evaluate the rule *)
     do* matched <-
       (fun s => (evaluateRule jsonLogic_apply (conditions rule) inputData,
                  s));
     (* Log the evaluation *)
     do* _ <- logWorkflow (id rule) matched inputData;
     (* Execute actions if rule matched *)
     if matched : bool then
       do* executionResults <-
         in_world
           (executeActions axios config (actions rule) inputData
              {| event := Some "scheduled"; ruleId := Some (id rule) |});
       ret tt
     else ret tt)
    (fun error =>
       (* Log the failed execution *)
       logWorkflow (id rule) false (JObject [])).

End WithServices.

End ScheduledRun.

(** ** server/controllers, [triggerRules] *)

Module RuleController.
Import Js Rules Config Evaluator Executor Logger.

(** One element of [executionResults]. *)
Record Execution : Type := {
  ex_ruleId : string;
  ex_ruleName : string;
  ex_actions : list ActionResult
}.

(** The [data] of the response of [triggerRules], without its [message];
    the answer for an empty rule set has no [executionResults]. *)
Record Triggered : Type := {
  tr_event : option string;
  matchedRules : list (string * string);
  totalRules : nat;
  executionResults : option (list Execution)
}.

Section WithServices.

Variable jsonLogic_apply : jsval -> jsval -> result jsval.
Variable axios : nat -> RequestConfig -> result Response.
Variable config : Config.
(** [ruleService.getActiveRules()] *)
Variable getActiveRules : result (list Rule).

(** The loop over [evaluationResults], with the two arrays it fills. *)
Fixpoint execute_matched (evaluationResults : list Evaluation)
    (event : option string) (data : jsval)
    (matchedRules : list (string * string))
    (executionResults : list Execution)
  : M System (list (string * string) * list Execution) :=
  match evaluationResults with
  | [] => ret (matchedRules, executionResults)
  | result :: rest =>
      if matched result then
        let matchedRules :=
          matchedRules ++ [(Evaluator.ruleId result, ruleName result)] in
        (* Log the evaluation *)
        do* _ <- logWorkflow (Evaluator.ruleId result) true data;
        (* Execute actions *)
        do* actions <-
          in_world
            (executeActions axios config (ev_actions result) data
               {| event := event;
                  ruleId := Some (Evaluator.ruleId result) |});
        let executionResults :=
          executionResults ++
          [ {| ex_ruleId := Evaluator.ruleId result;
               ex_ruleName := ruleName result;
               ex_actions := actions |} ] in
        execute_matched rest event data matchedRules executionResults
      else
        (* Log failed evaluation *)
        do* _ <- logWorkflow (Evaluator.ruleId result) false data;
        execute_matched rest event data matchedRules executionResults
  end.

(** [triggerRules(req, res, next)] with [req.body = { event, data }]: the
    [data] of the response, or the error handed to [next]. *)
Definition triggerRules (event : option string) (data : jsval)
  : M System Triggered :=
  try_catchM
    (do* rules <- (fun s => (getActiveRules, s));
     if (length rules =? 0)%nat then
       ret {| tr_event := event; matchedRules := []; totalRules := 0;
              executionResults := None |}
     else
       do* evaluationResults <-
         (fun s => (evaluateRules jsonLogic_apply rules data, s));
       do* filled <- execute_matched evaluationResults event data [] [];
       ret {| tr_event := event; matchedRules := fst filled;
              totalRules := length rules;
              executionResults := Some (snd filled) |})
    (fun error => throw error).

End WithServices.

End RuleController.

(** ** Vocabulary of the statements about runs *)

Module RunVocabulary.
Import Js Rules Config Evaluator EvaluatorVocabulary Executor Logger.
Import ExecutorVocabulary ExecutorTools RuleController.

(** The row [logWorkflow] writes for a rule evaluated on [data]. *)
Definition row_of (jsonLogic_apply : jsval -> jsval -> result jsval)
    (data : jsval) (rule : Rule) : LogRow :=
  {| log_ruleId := id rule;
     log_matched := matched (entry_of jsonLogic_apply data rule);
     log_input := data |}.

(** The rules that match [data]. *)
Definition matching (jsonLogic_apply : jsval -> jsval -> result jsval)
    (data : jsval) (rules : list Rule) : list Rule :=
  List.filter (fun rule => matched (entry_of jsonLogic_apply data rule))
              rules.

(** [execution] is the element of [executionResults] of [rule]: its id and
    name, and one result per action, in order. *)
Definition executed_for (rule : Rule) (execution : Execution) : Prop :=
  ex_ruleId execution = id rule /\
  ex_ruleName execution = name rule /\
  map Executor.action (ex_actions execution) = actions rule.

(** A rule that matches every input and notifies one webhook. *)
Definition notifying_rule : Rule :=
  {| id := "rule-7"; name := "notify"; conditions := documented_condition;
     actions := [hook]; schedule := Some "0 */5 * * * *";
     scheduledInput := Some [("trigger", JStr "nightly")] |}.

(** A system with an open database and nothing done yet. *)
Definition fresh : System :=
  {| world := no_effects; db_open := true; workflow_logs := [] |}.

(** The same after [closeDB()]. *)
Definition closed : System :=
  {| world := no_effects; db_open := false; workflow_logs := [] |}.

End RunVocabulary.


(* ===================================================================== *)
(** * Part II: properties                                                 *)
(* ===================================================================== *)

(** ** Values *)

Module JsFacts.
Import Js.


Lemma includes_true l x : includes l x = true <-> In x l.
Proof.
  unfold includes. rewrite existsb_exists. split.
  - intros (y & Hy & Heq). apply String.eqb_eq in Heq. now subst.
  - intros Hin. exists x. split; [assumption | apply String.eqb_refl].
Qed.

Lemma indexed_from_item i items v :
  In v items -> exists j, In (index_key j, v) (indexed_from i items).
Proof.
  revert i. induction items as [| x rest IH]; intros i; [intros [] |].
  intros [-> | Hin].
  - exists i. now left.
  - destruct (IH (S i) Hin) as (j & Hj). exists j. now right.
Qed.

End JsFacts.

(** ** The condition evaluator *)

Module EvaluatorFacts.
Import Js Rules Evaluator EvaluatorVocabulary EvaluatorTools Malformed JsFacts.

(** *** The circularity check passes on every tree *)

Lemma seen_has_false self seen :
  unvisited self seen -> seen_has seen self = false.
Proof.
  intros Hun. unfold seen_has.
  destruct (existsb _ seen) eqn:Hex; [| reflexivity].
  apply existsb_exists in Hex as (m & Hin & Heq).
  apply bool_decide_eq_true in Heq. subst m.
  exfalso. now apply (Hun self Hin).
Qed.

Lemma siblings_apart (self m : node_id) i j :
  self ++ [i] `prefix_of` m -> self ++ [j] `prefix_of` m -> i = j.
Proof.
  intros [k1 ->] [k2 Heq].
  rewrite <- !app_assoc in Heq. apply app_inv_head in Heq.
  now inversion Heq.
Qed.

Lemma check_values_passes self checks :
  Forall passes checks ->
  forall i seen,
    (forall m j, In m seen -> (i <= j)%nat -> ~ self ++ [j] `prefix_of` m) ->
    exists seen', check_values self checks i seen = Ok seen' /\
      forall m, In m seen' -> In m seen \/ self `prefix_of` m.
Proof.
  induction 1 as [| check rest Hcheck _ IH]; intros i seen Hseen; cbn.
  - exists seen. split; [reflexivity | now left].
  - destruct (Hcheck (self ++ [i]) seen) as (seen1 & -> & Hseen1).
    { intros m Hm. now apply (Hseen m i). }
    cbn. destruct (IH (S i) seen1) as (seen2 & -> & Hseen2).
    { intros m j Hm Hij Hpre.
      destruct (Hseen1 m Hm) as [Hold | Hnew].
      - apply (Hseen m j Hold); [lia | assumption].
      - pose proof (siblings_apart _ _ _ _ Hnew Hpre). lia. }
    exists seen2. split; [reflexivity |].
    intros m Hm. destruct (Hseen2 m Hm) as [Hin | Hpre]; [| now right].
    destruct (Hseen1 m Hin) as [Hold | Hnew]; [now left | right].
    now apply prefix_app_l in Hnew.
Qed.

Lemma check_node_passes self seen checks :
  Forall passes checks -> unvisited self seen ->
  exists seen',
    (if seen_has seen self
     then Throw (Error "Circular reference detected in condition")
     else check_values self checks O (self :: seen)) = Ok seen' /\
    forall m, In m seen' -> In m seen \/ self `prefix_of` m.
Proof.
  intros Hchecks Hun. rewrite (seen_has_false _ _ Hun).
  destruct (check_values_passes self checks Hchecks O (self :: seen))
    as (seen' & Heq & Hseen').
  { intros m j [<- | Hm] _ Hpre.
    - now apply prefix_snoc_not in Hpre.
    - apply (Hun m Hm). now apply prefix_app_l in Hpre. }
  exists seen'. split; [assumption |].
  intros m Hm. destruct (Hseen' m Hm) as [[<- | Hin] | Hpre].
  - now right.
  - now left.
  - now right.
Qed.

Lemma checkCircularReferences_passes obj :
  passes (checkCircularReferences obj).
Proof.
  induction obj as [| | b | n | s | items IH | fields IH] using jsval_ind;
    intros self seen Hun; cbn;
    try (exists seen; split; [reflexivity | now left]).
  - apply check_node_passes; [| assumption].
    apply Forall_map. exact IH.
  - apply check_node_passes; [| assumption].
    apply Forall_map. exact IH.
Qed.

(** On a condition tree [checkCircularReferences(condition)] returns. *)
Lemma checkCircularReferences_returns condition :
  exists seen, checkCircularReferences condition [] [] = Ok seen.
Proof.
  destruct (checkCircularReferences_passes condition [] []) as (seen & H & _).
  - intros m [].
  - now exists seen.
Qed.

(** *** Validation *)

Lemma validate_object fields :
  validateJsonLogicOperators (JObject fields) = validate_entries fields.
Proof.
  cbn. induction fields as [| [key value] rest IH]; [reflexivity |].
  cbn. now rewrite IH.
Qed.

Lemma validate_array items :
  validateJsonLogicOperators (JArray items) =
  validate_entries (entries (JArray items)).
Proof.
  cbn. generalize O.
  induction items as [| value rest IH]; intros i; [reflexivity |].
  cbn. now rewrite IH.
Qed.

Lemma validate_by_entries c :
  validateJsonLogicOperators c = validate_entries (entries c).
Proof.
  destruct c;
    first [reflexivity | apply validate_array | apply validate_object].
Qed.

Lemma validate_entries_throws es e :
  validate_entries es = Throw e ->
  exists key value,
    In (key, value) es /\
    validate_entry validateJsonLogicOperators key value = Throw e.
Proof.
  induction es as [| [key value] rest IH]; cbn; [discriminate |].
  destruct (validate_entry _ key value) as [[] | e'] eqn:Hstep; cbn.
  - intros H. destruct (IH H) as (k & v & Hin & Hkv).
    exists k, v. split; [now right | assumption].
  - intros [= ->]. exists key, value. split; [now left | assumption].
Qed.

Lemma validate_entries_fails es key value e :
  In (key, value) es ->
  validate_entry validateJsonLogicOperators key value = Throw e ->
  exists e' key' value',
    In (key', value') es /\
    validate_entry validateJsonLogicOperators key' value' = Throw e' /\
    validate_entries es = Throw e'.
Proof.
  induction es as [| [k v] rest IH]; intros Hin Hthrow; [destruct Hin |].
  cbn. destruct (validate_entry _ k v) as [[] | e1] eqn:Hstep; cbn.
  - destruct Hin as [[= -> ->] | Hin]; [congruence |].
    destruct (IH Hin Hthrow) as (e' & k' & v' & Hin' & Hkv & Hall).
    exists e', k', v'. split; [now right | now split].
  - exists e1, k, v. split; [now left | now split].
Qed.

(** Every error of [validateJsonLogicOperators] comes from
    [validateOperatorArguments]. *)
Lemma validation_error_invalid_arguments c e :
  validateJsonLogicOperators c = Throw e -> invalid_arguments e.
Proof.
  revert e.
  induction c as [| | b | n | s | items IH | fields IH] using jsval_ind;
    intros e; try discriminate; rewrite validate_by_entries; intros Hthrow;
    apply validate_entries_throws in Hthrow as (key & value & Hin & Hstep);
    unfold validate_entry in Hstep;
    (destruct (includes validOperators key);
     [ now exists key, value |]);
    destruct (_ && _); try discriminate.
  - assert (Hitem : In value items).
    { cbn in Hin. clear - Hin. revert Hin. generalize O.
      induction items as [| v rest IHl]; intros i; [intros [] |].
      cbn. intros [[= _ ->] | H]; [now left | right; eauto]. }
    rewrite List.Forall_forall in IH. now apply (IH value Hitem).
  - rewrite List.Forall_forall in IH. now apply (IH (key, value) Hin).
Qed.

Lemma violated_is_rejected operator args :
  contract_violated operator args = true ->
  includes validOperators operator = true /\
  exists e, validateOperatorArguments operator (JArray args) = Throw e.
Proof.
  unfold contract_violated, validateOperatorArguments.
  destruct (includes ["=="; "==="; "!="; "!=="; "<"; "<="; ">"; ">="] operator)
    eqn:Hcmp.
  { intros ->. split; [| eauto].
    apply includes_true in Hcmp. apply includes_true.
    cbn in Hcmp. unfold validOperators.
    repeat (destruct Hcmp as [<- | Hcmp]; [cbn; tauto |]). destruct Hcmp. }
  destruct (includes ["and"; "or"] operator) eqn:Hlog.
  { intros ->. split; [| eauto].
    apply includes_true in Hlog. apply includes_true.
    cbn in Hlog. unfold validOperators.
    repeat (destruct Hlog as [<- | Hlog]; [cbn; tauto |]). destruct Hlog. }
  destruct (String.eqb operator "not") eqn:Hnot.
  { intros ->. apply String.eqb_eq in Hnot. subst.
    split; [reflexivity | eauto]. }
  destruct (String.eqb operator "var") eqn:Hvar; [| discriminate].
  apply String.eqb_eq in Hvar. subst. intros Hviol. split; [reflexivity |].
  destruct args as [| a [| b rest]]; cbn; eauto.
  destruct a; cbn; try discriminate; eauto.
Qed.

Lemma validate_entry_descends key sub e :
  includes validOperators key = false ->
  validateJsonLogicOperators sub = Throw e ->
  validate_entry validateJsonLogicOperators key sub = Throw e.
Proof.
  intros Hkey Hsub. unfold validate_entry. rewrite Hkey.
  assert (Hvar : String.eqb key "var" = false).
  { destruct (String.eqb key "var") eqn:Heq; [| reflexivity].
    apply String.eqb_eq in Heq. subst. discriminate. }
  rewrite Hvar. destruct sub; try discriminate; exact Hsub.
Qed.

(** An index key is no operator: the items of an array are validated like
    the values under plain keys. *)
Lemma index_key_no_operator i : includes validOperators (index_key i) = false.
Proof.
  unfold index_key.
  destruct (Nat.to_uint i); reflexivity.
Qed.

Lemma outside_arguments_item operator value items v :
  In v items -> outside_arguments operator value v ->
  outside_arguments operator value (JArray items).
Proof.
  intros Hin Hv.
  destruct (indexed_from_item O items v Hin) as (j & Hj).
  apply outside_below with (key := index_key j) (sub := v).
  - exact Hj.
  - apply index_key_no_operator.
  - exact Hv.
Qed.

Lemma outside_arguments_rejected operator args c :
  outside_arguments operator (JArray args) c ->
  contract_violated operator args = true ->
  exists e, validateJsonLogicOperators c = Throw e.
Proof.
  intros Hout Hviol.
  destruct (violated_is_rejected _ _ Hviol) as (Hop & e0 & He0).
  induction Hout as [c Hin | c key sub Hin Hkey _ (e & He)];
    rewrite validate_by_entries.
  - destruct (validate_entries_fails (entries c) operator (JArray args) e0 Hin)
      as (e' & _ & _ & _ & _ & Hall).
    + unfold validate_entry. now rewrite Hop.
    + now exists e'.
  - destruct (validate_entries_fails (entries c) key sub e Hin)
      as (e' & _ & _ & _ & _ & Hall).
    + now apply validate_entry_descends.
    + now exists e'.
Qed.

Lemma validateCondition_of_node c :
  entries c <> [] ->
  validateCondition c = validateJsonLogicOperators c.
Proof.
  intros Hne. unfold validateCondition.
  destruct (checkCircularReferences_returns c) as (seen & ->).
  destruct c; try (now contradiction Hne); reflexivity.
Qed.

Example documented_condition_is_accepted :
  validateCondition documented_condition = Ok tt.
Proof. reflexivity. Qed.

Example bare_var_is_rejected :
  validateCondition (JObject [("var", JStr "amount")]) =
  Throw (Error "Operator 'var' requires an array of arguments").
Proof. reflexivity. Qed.

Example string_is_no_condition :
  validateCondition (JStr "amount > 1000") =
  Throw (Error "Condition must be a valid JSON object").
Proof. reflexivity. Qed.

(** C7 (as amended).  When a recognized operator appears with an argument
    list that violates its contract, and the occurrence is not inside the
    argument list of another recognized operator (it is a key of the
    condition itself or is reached from it through keys and array indices
    that are no operators), validation fails, and the error is one
    [validateOperatorArguments] throws. *)
Theorem validation_rejects_violation_outside_arguments
    (condition : jsval) (operator : string) (args : list jsval) :
  outside_arguments operator (JArray args) condition ->
  contract_violated operator args = true ->
  exists e, validateCondition condition = Throw e /\ invalid_arguments e.
Proof.
  intros Hout Hviol.
  destruct (outside_arguments_rejected _ _ _ Hout Hviol) as (e & He).
  exists e. split.
  - rewrite validateCondition_of_node; [assumption |].
    destruct Hout as [c Hin | c key sub Hin _ _];
      intros Hnil; rewrite Hnil in Hin; destruct Hin.
  - now apply validation_error_invalid_arguments with condition.
Qed.

Lemma validation_rejects_violation_outside_arguments_witness :
  (exists e, validateCondition short_comparison = Throw e /\
             invalid_arguments e) /\
  (exists e, validateCondition not_under_plain_key = Throw e /\
             invalid_arguments e).
Proof.
  split.
  - apply (validation_rejects_violation_outside_arguments
             short_comparison "==" [JNum 1]).
    + apply outside_here. cbn. now left.
    + reflexivity.
  - apply (validation_rejects_violation_outside_arguments
             not_under_plain_key "not" []).
    + apply outside_below with (key := "meta")
                               (sub := JObject [("not", JArray [])]).
      * cbn. now left.
      * reflexivity.
      * apply outside_here. cbn. now left.
    + reflexivity.
Defined.

(** C7 (as stated) fails: in [{"and": [{"==": [1]}, true]}] the comparison
    has one argument, and validation accepts the condition, because the
    arguments of a recognized operator are not descended into. *)
Lemma nested_violation_passes_validation :
  occurs "==" (JArray [JNum 1]) nested_short_comparison /\
  includes validOperators "==" = true /\
  contract_violated "==" [JNum 1] = true /\
  validateCondition nested_short_comparison = Ok tt.
Proof.
  split; [| split; [reflexivity | split; reflexivity]].
  apply occurs_below with (key := "and")
                          (sub := JArray [short_comparison; JBool true]).
  { cbn. now left. }
  apply occurs_below with (key := "0") (sub := short_comparison).
  { cbn. now left. }
  apply occurs_here. cbn. now left.
Qed.

(** *** Evaluation *)

Lemma bad_arguments_refused operator value :
  bad_arguments operator value ->
  includes validOperators operator = true /\
  exists e, validateOperatorArguments operator value = Throw e.
Proof.
  intros [Hop Hbad]. split; [assumption |].
  destruct value; try (cbn; eauto; fail).
  now apply violated_is_rejected in Hbad as [_ Hthrow].
Qed.

Lemma outside_arguments_refused operator value c :
  outside_arguments operator value c ->
  bad_arguments operator value ->
  exists e, validateJsonLogicOperators c = Throw e.
Proof.
  intros Hout Hbad.
  destruct (bad_arguments_refused _ _ Hbad) as (Hop & e0 & He0).
  induction Hout as [c Hin | c key sub Hin Hkey _ (e & He)];
    rewrite validate_by_entries.
  - destruct (validate_entries_fails (entries c) operator value e0 Hin)
      as (e' & _ & _ & _ & _ & Hall).
    + unfold validate_entry. now rewrite Hop.
    + now exists e'.
  - destruct (validate_entries_fails (entries c) key sub e Hin)
      as (e' & _ & _ & _ & _ & Hall).
    + now apply validate_entry_descends.
    + now exists e'.
Qed.

Lemma validateCondition_of_other c :
  is_object c = false ->
  validateCondition c = Throw (Error "Condition must be a valid JSON object").
Proof.
  intros Hc. unfold validateCondition.
  destruct c as [| | [] | n | s | items | fields]; try discriminate;
    try reflexivity.
  - cbn. now destruct (n =? 0).
  - cbn. now destruct (String.eqb s "").
Qed.

(** Validation rejects every condition that is visibly malformed. *)
Lemma visibly_malformed_rejected c :
  visibly_malformed c -> exists e, validateCondition c = Throw e.
Proof.
  intros [Hshape | (operator & value & Hout & Hbad)].
  - eexists. now apply validateCondition_of_other.
  - rewrite validateCondition_of_node.
    + now apply (outside_arguments_refused operator value).
    + destruct Hout as [c Hin | c key sub Hin _ _];
        intros Hnil; rewrite Hnil in Hin; destruct Hin.
Qed.

(** An object that is no rule for json-logic-js (it has no key, or more
    than one) matches every input once validation lets it through: [apply]
    returns it as data, and an object is truthy. *)
Lemma unruly_object_matches operate fields data :
  JsonLogic.is_logic (JObject fields) = false ->
  validateCondition (JObject fields) = Ok tt ->
  evaluateRule (JsonLogic.apply operate) (JObject fields) data = Ok true.
Proof.
  intros Hlogic Hvalid. unfold evaluateRule. rewrite Hvalid. cbn.
  destruct fields as [| [op values] [| second rest]];
    try discriminate; reflexivity.
Qed.

(** C1 (as amended).  [evaluateRule] returns a boolean for every condition
    and every input and never throws.  The boolean is [false] for every
    condition that is visibly malformed (no object or array, or with a
    recognized operator, at a place validation visits, whose arguments are
    no array or violate its contract), and in general whenever validation
    of the condition throws or [jsonLogic.apply] throws on it; otherwise it
    is the truth value of what [jsonLogic.apply] returned. *)
Theorem evaluateRule_fails_closed
    (jsonLogic_apply : jsval -> jsval -> result jsval)
    (condition data : jsval) :
  exists b : bool,
    evaluateRule jsonLogic_apply condition data = Ok b /\
    (visibly_malformed condition -> b = false) /\
    ((exists e, validateCondition condition = Throw e) -> b = false) /\
    ((exists e, jsonLogic_apply condition (preprocessData data) = Throw e) ->
     b = false) /\
    (forall v, validateCondition condition = Ok tt ->
               jsonLogic_apply condition (preprocessData data) = Ok v ->
               b = truthy v).
Proof.
  pose proof (visibly_malformed_rejected condition) as Hrejected.
  unfold evaluateRule.
  destruct (validateCondition condition) as [[] | e] eqn:Hvalid; cbn.
  - assert (Hfine : ~ visibly_malformed condition).
    { intros Hbad. destruct (Hrejected Hbad) as (e & He). discriminate. }
    destruct (jsonLogic_apply condition (preprocessData data)) as [v | e]
      eqn:Happly; cbn.
    + exists (truthy v). split; [reflexivity |].
      split; [intros Hbad; now destruct Hfine |].
      split; [intros (e & He); discriminate |].
      split; [intros (e & He); discriminate |].
      intros v' _ [= <-]. reflexivity.
    + exists false. repeat split. intros v _ Hv. discriminate.
  - exists false. repeat split. intros v Hv. discriminate.
Qed.

(** C1 (as stated) fails: [{"==": [1, 2], "!=": [1, 1]}] names two
    comparisons, both false, and does not say which is meant; validation
    accepts it, json-logic-js takes an object with two keys for data, and
    [evaluateRule] reports a match.  The empty object matches likewise. *)
Lemma ambiguous_condition_matches :
  validateCondition two_operators = Ok tt /\
  evaluateRule (JsonLogic.apply JsonLogic.no_operations) two_operators
    (JObject [("amount", JNum 1500)]) = Ok true /\
  evaluateRule (JsonLogic.apply JsonLogic.no_operations) (JObject [])
    (JObject [("amount", JNum 1500)]) = Ok true.
Proof. repeat split. Qed.

(** [evaluateRule] returns a boolean, [false] when validation throws. *)
Lemma evaluateRule_returns
    (jsonLogic_apply : jsval -> jsval -> result jsval)
    (condition data : jsval) :
  exists b : bool,
    evaluateRule jsonLogic_apply condition data = Ok b /\
    ((exists e, validateCondition condition = Throw e) -> b = false).
Proof.
  unfold evaluateRule.
  destruct (validateCondition condition) as [[] | e]; cbn.
  - destruct (jsonLogic_apply condition (preprocessData data)) as [v | e];
      cbn; eexists; (split; [reflexivity |]); intros (e' & He'); discriminate.
  - exists false. now split.
Qed.

Example evaluateRule_matches :
  evaluateRule always_true documented_condition (JObject []) = Ok true /\
  evaluateRule always_true short_comparison (JObject []) = Ok false.
Proof. split; reflexivity. Qed.

Lemma evaluateRules_step_entry jsonLogic_apply rule data :
  evaluateRules_step jsonLogic_apply rule data =
  Ok (entry_of jsonLogic_apply data rule).
Proof.
  unfold evaluateRules_step, entry_of.
  destruct (evaluateRule_returns jsonLogic_apply (conditions rule) data)
    as (b & -> & _).
  reflexivity.
Qed.

Lemma evaluateRules_entries jsonLogic_apply rules data :
  evaluateRules jsonLogic_apply rules data =
  Ok (map (entry_of jsonLogic_apply data) rules).
Proof.
  induction rules as [| rule rest IH]; [reflexivity |].
  cbn [evaluateRules]. rewrite evaluateRules_step_entry, IH. reflexivity.
Qed.

(** C4 (as amended).  [evaluateRules] returns one entry per rule, in rule
    order; the entry of a rule carries the boolean [evaluateRule] returns
    for its condition and no error field; when the condition of rule k is
    visibly malformed (no object or array, or with a recognized operator, at
    a place validation visits, whose arguments are no array or violate its
    contract), and whenever validation rejects it, its entry reports
    [matched: false]; and replacing rule k by any other rule leaves the
    entries of all other rules as they were. *)
Theorem evaluateRules_isolates_rules
    (jsonLogic_apply : jsval -> jsval -> result jsval)
    (rules : list Rule) (data : jsval) :
  exists results,
    evaluateRules jsonLogic_apply rules data = Ok results /\
    length results = length rules /\
    (forall k rule, rules !! k = Some rule ->
       exists entry,
         results !! k = Some entry /\
         ruleId entry = id rule /\ ruleName entry = name rule /\
         evaluateRule jsonLogic_apply (conditions rule) data
           = Ok (matched entry) /\
         error entry = None /\
         (visibly_malformed (conditions rule) -> matched entry = false) /\
         ((exists e, validateCondition (conditions rule) = Throw e) ->
          matched entry = false)) /\
    (forall k rule' results',
       evaluateRules jsonLogic_apply (<[k := rule']> rules) data
         = Ok results' ->
       forall j, j <> k -> results' !! j = results !! j).
Proof.
  exists (map (entry_of jsonLogic_apply data) rules).
  split; [apply evaluateRules_entries |].
  split; [apply length_map |].
  split.
  - intros k rule Hk. exists (entry_of jsonLogic_apply data rule).
    split; [now rewrite list_lookup_fmap, Hk |].
    destruct (evaluateRule_returns jsonLogic_apply (conditions rule) data)
      as (b & Hb & Hinvalid).
    unfold entry_of; cbn. rewrite Hb. repeat split; [| exact Hinvalid].
    intros Hbad. now apply Hinvalid, visibly_malformed_rejected.
  - intros k rule' results'. rewrite evaluateRules_entries.
    intros [= <-] j Hj.
    rewrite !list_lookup_fmap. now rewrite list_lookup_insert_ne.
Qed.

(** C4 (as stated) fails: the entry of a rule whose condition is malformed
    has no error marker, although validation of the condition throws.  And
    a rule whose condition is malformed in a way validation does not see,
    here two comparisons in one object, is reported as matching. *)
Lemma malformed_rule_entry_has_no_error :
  (exists e, validateCondition (conditions malformed_rule) = Throw e) /\
  evaluateRules always_true [malformed_rule] JNull =
    Ok [ {| ruleId := "rule-1"; ruleName := "malformed"; matched := false;
            error := None;
            ev_conditions := short_comparison; ev_actions := [] |} ] /\
  evaluateRules (JsonLogic.apply JsonLogic.no_operations) [ambiguous_rule]
    JNull =
    Ok [ {| ruleId := "rule-2"; ruleName := "ambiguous"; matched := true;
            error := None;
            ev_conditions := two_operators; ev_actions := [] |} ].
Proof.
  split; [| split; reflexivity].
  eexists. reflexivity.
Qed.

End EvaluatorFacts.

(** ** The action executor *)

Module ExecutorFacts.
Import Js Rules Config Executor ExecutorVocabulary.

Example delay_values :
  delay 1 = 1000 /\ delay 2 = 2000 /\ delay 3 = 4000 /\ delay 4 = 8000 /\
  delay 5 = 10000 /\ delay 10 = 10000.
Proof. repeat split. Qed.

Section Transport.

Variable axios : nat -> RequestConfig -> result Response.
Variable config : Config.

(** *** The retry loop *)

(** One iteration of the retry loop: the request is issued; a response is
    returned as a success; a rejection ends [executeWebhook] with the
    ReferenceError of the catch block. *)
Lemma retry_loop_iteration action requestConfig retries remaining attempt
    lastError w :
  retry_loop axios action requestConfig retries (S remaining) attempt
    lastError w =
  match axios (length (requests w)) requestConfig with
  | Ok response =>
      (Ok {| success := true; action := action; response := Some response;
             attempt := Some attempt; error := None |},
       issued requestConfig w)
  | Throw _ =>
      (Throw (ReferenceError "startTime is not defined"),
       issued requestConfig w)
  end.
Proof.
  cbn. unfold bind, try_catchM, call_axios.
  destruct (axios (length (requests w)) requestConfig); reflexivity.
Qed.

Lemma retry_loop_exhausted action requestConfig retries attempt w :
  retry_loop axios action requestConfig retries O attempt None w =
  (Throw (TypeError "Cannot read properties of undefined (reading 'message')"),
   w).
Proof. reflexivity. Qed.

(** What the retry loop returns is a success for the action it was given,
    and in any case it issues at most one request and never sleeps. *)
Lemma retry_loop_effects action requestConfig retries remaining attempt
    lastError w :
  let '(r, w') :=
    retry_loop axios action requestConfig retries remaining attempt
      lastError w in
  (w' = w \/ w' = issued requestConfig w) /\
  (forall res, r = Ok res ->
     success res = true /\ Executor.action res = action /\
     w' = issued requestConfig w).
Proof.
  destruct remaining as [| remaining].
  - cbn. destruct lastError; cbn; (split; [now left | discriminate]).
  - rewrite retry_loop_iteration.
    destruct (axios (length (requests w)) requestConfig).
    + split; [now right |]. intros res [= <-]. now cbn.
    + split; [now right | discriminate].
Qed.

(** *** [executeWebhook] *)

Lemma executeWebhook_effects action data context w :
  let '(r, w') := executeWebhook axios config action data context w in
  (w' = w \/ w' = issued (requestConfig_of config action data context) w) /\
  (forall res, r = Ok res ->
     success res = true /\ Executor.action res = action).
Proof.
  unfold executeWebhook.
  destruct (nonempty (url action)); cbn [negb].
  - pose proof (retry_loop_effects action
                  (requestConfig_of config action data context)
                  (retries_of config action)
                  (Z.to_nat (retries_of config action)) 1 None w) as H.
    destruct (retry_loop _ _ _ _ _ _ _ _) as [r w'].
    destruct H as [Hw Hr]. split; [assumption |].
    intros res Hres. destruct (Hr res Hres) as (? & ? & _). now split.
  - cbn. split; [now left | discriminate].
Qed.

(** A rejected request ends [executeWebhook] after that one request, whatever
    the status and however many attempts are configured. *)
Lemma executeWebhook_rejected action data context w e :
  nonempty (url action) = true ->
  0 < retries_of config action ->
  axios (length (requests w)) (requestConfig_of config action data context)
    = Throw e ->
  executeWebhook axios config action data context w =
  (Throw (ReferenceError "startTime is not defined"),
   issued (requestConfig_of config action data context) w).
Proof.
  intros Hurl Hretries Hreject. unfold executeWebhook. rewrite Hurl. cbn [negb].
  destruct (Z.to_nat (retries_of config action)) as [| remaining] eqn:Hn;
    [lia |].
  rewrite retry_loop_iteration, Hreject. reflexivity.
Qed.

(** Without a positive number of attempts nothing is requested. *)
Lemma executeWebhook_no_attempts action data context w :
  retries_of config action <= 0 ->
  exists e, executeWebhook axios config action data context w = (Throw e, w).
Proof.
  intros Hretries. unfold executeWebhook.
  destruct (nonempty (url action)); cbn [negb].
  - replace (Z.to_nat (retries_of config action)) with O by lia.
    rewrite retry_loop_exhausted. eauto.
  - cbn. eauto.
Qed.

(** *** [executeAction] and [executeActions] *)

Lemma executeAction_webhook action data context w :
  type_is action "webhook" = true ->
  executeAction axios config action data context w =
  executeWebhook axios config action data context w.
Proof.
  intros Hty. unfold executeAction, try_catchM. rewrite Hty.
  destruct (executeWebhook _ _ _ _ _ _) as [[res | e] w']; reflexivity.
Qed.

Lemma executeAction_unsupported action data context w :
  type_is action "webhook" = false ->
  executeAction axios config action data context w =
  (Throw (Error ("Unsupported action type: " +:+
                 default "undefined" (type action))), w).
Proof.
  intros Hty. unfold executeAction, try_catchM. now rewrite Hty.
Qed.

Lemma executeAction_returns action data context w res w' :
  executeAction axios config action data context w = (Ok res, w') ->
  success res = true /\ Executor.action res = action.
Proof.
  destruct (type_is action "webhook") eqn:Hty.
  - rewrite executeAction_webhook by assumption.
    pose proof (executeWebhook_effects action data context w) as H.
    destruct (executeWebhook _ _ _ _ _ _) as [r w1].
    intros [= -> ->]. destruct H as [_ H]. now apply H.
  - rewrite executeAction_unsupported by assumption. discriminate.
Qed.

Lemma run_action_captures action data context w :
  exists r w',
    run_action axios config action data context w = (Ok r, w') /\
    Executor.action r = action /\
    (executeAction axios config action data context w = (Ok r, w') \/
     exists e, executeAction axios config action data context w = (Throw e, w')
               /\ r = failure action e).
Proof.
  unfold run_action, try_catchM.
  destruct (executeAction axios config action data context w) as [[res | e] w']
    eqn:Hrun.
  - exists res, w'. split; [reflexivity |]. split; [| now left].
    now apply executeAction_returns in Hrun.
  - exists (failure action e), w'. cbn. split; [reflexivity |].
    split; [reflexivity | right; eauto].
Qed.

Lemma executeActions_cons action rest data context w :
  executeActions axios config (action :: rest) data context w =
  match run_action axios config action data context w with
  | (Ok r, w1) =>
      match executeActions axios config rest data context w1 with
      | (Ok rs, w2) => (Ok (r :: rs), w2)
      | (Throw e, w2) => (Throw e, w2)
      end
  | (Throw e, w1) => (Throw e, w1)
  end.
Proof.
  cbn [executeActions]. unfold bind, run_action.
  destruct (try_catchM _ _ w) as [[r | e] w1]; [| reflexivity].
  destruct (executeActions _ _ rest data context w1) as [[rs | e] w2];
    reflexivity.
Qed.

Lemma executeActions_returns actions data context w :
  exists results w',
    executeActions axios config actions data context w = (Ok results, w') /\
    map Executor.action results = actions.
Proof.
  revert w. induction actions as [| action rest IH]; intros w.
  - exists [], w. now split.
  - rewrite executeActions_cons.
    destruct (run_action_captures action data context w)
      as (r & w1 & -> & Hr & _).
    destruct (IH w1) as (rs & w2 & -> & Hrs).
    exists (r :: rs), w2. split; [reflexivity |]. cbn. now rewrite Hr, Hrs.
Qed.

Lemma executeActions_app before after data context w :
  executeActions axios config (before ++ after) data context w =
  match executeActions axios config before data context w with
  | (Ok rs1, w1) =>
      match executeActions axios config after data context w1 with
      | (Ok rs2, w2) => (Ok (rs1 ++ rs2), w2)
      | (Throw e, w2) => (Throw e, w2)
      end
  | (Throw e, w1) => (Throw e, w1)
  end.
Proof.
  revert w. induction before as [| action rest IH]; intros w.
  - cbn [app executeActions ret].
    destruct (executeActions_returns after data context w)
      as (rs & w' & -> & _). reflexivity.
  - cbn [app]. rewrite !executeActions_cons.
    destruct (run_action_captures action data context w)
      as (r & w1 & -> & _).
    rewrite IH.
    destruct (executeActions_returns rest data context w1)
      as (rs1 & w2 & -> & _).
    destruct (executeActions_returns after data context w2)
      as (rs2 & w3 & -> & _).
    reflexivity.
Qed.

(** C2.  [executeActions] never throws and returns one result per action,
    each carrying its action, in the order of the input.  At every position
    the result is what [executeAction] returned for that action or, when it
    threw, the failure object with [success: false]; the actions after it
    are executed all the same, from the world that action left.  An action of
    an unsupported type yields such a failure. *)
Theorem executeActions_captures_every_failure
    (actions : list Action) (data : jsval) (context : Context) (w : World) :
  exists results w',
    executeActions axios config actions data context w = (Ok results, w') /\
    length results = length actions /\
    map Executor.action results = actions /\
    (forall before a after, actions = before ++ a :: after ->
       exists rs1 w1 r w2 rs2,
         executeActions axios config before data context w = (Ok rs1, w1) /\
         (executeAction axios config a data context w1 = (Ok r, w2) \/
          exists e,
            executeAction axios config a data context w1 = (Throw e, w2) /\
            r = failure a e /\ success r = false) /\
         executeActions axios config after data context w2 = (Ok rs2, w') /\
         results = rs1 ++ r :: rs2 /\ length rs1 = length before) /\
    (forall k a, actions !! k = Some a -> type_is a "webhook" = false ->
       exists r, results !! k = Some r /\ success r = false /\
                 Executor.action r = a).
Proof.
  destruct (executeActions_returns actions data context w)
    as (results & w' & Hrun & Hmap).
  exists results, w'. split; [assumption |].
  split; [rewrite <- Hmap; now rewrite length_map |].
  split; [assumption |].
  assert (Hsplit : forall before a after, actions = before ++ a :: after ->
       exists rs1 w1 r w2 rs2,
         executeActions axios config before data context w = (Ok rs1, w1) /\
         (executeAction axios config a data context w1 = (Ok r, w2) \/
          exists e,
            executeAction axios config a data context w1 = (Throw e, w2) /\
            r = failure a e /\ success r = false) /\
         executeActions axios config after data context w2 = (Ok rs2, w') /\
         results = rs1 ++ r :: rs2 /\ length rs1 = length before).
  { intros before a after ->.
    rewrite executeActions_app in Hrun.
    destruct (executeActions_returns before data context w)
      as (rs1 & w1 & Hbefore & Hmap1).
    rewrite Hbefore, executeActions_cons in Hrun.
    destruct (run_action_captures a data context w1)
      as (r & w2 & Hstep & _ & Hr).
    rewrite Hstep in Hrun.
    destruct (executeActions_returns after data context w2)
      as (rs2 & w3 & Hafter & _).
    rewrite Hafter in Hrun. injection Hrun as <- <-.
    exists rs1, w1, r, w2, rs2. split; [assumption |].
    split.
    - destruct Hr as [Hok | (e & Hthrow & ->)]; [now left | right].
      exists e. now repeat split.
    - split; [assumption |]. split; [reflexivity |].
      rewrite <- Hmap1. now rewrite length_map. }
  split; [exact Hsplit |].
  intros k a Hk Hty.
  destruct (Hsplit (take k actions) a (drop (S k) actions))
    as (rs1 & w1 & r & w2 & rs2 & _ & Hr & _ & -> & Hlen).
  { symmetry. now apply take_drop_middle. }
  assert (Hk' : length rs1 = k).
  { rewrite Hlen, length_take. apply lookup_lt_Some in Hk. lia. }
  exists r. split; [subst k; apply list_lookup_middle; reflexivity |].
  rewrite executeAction_unsupported in Hr by assumption.
  destruct Hr as [Hok | (e & _ & -> & _)]; [discriminate | now split].
Qed.

(** C9.  A webhook action whose [retries] is 0 passes the range check of
    [validateAction]; [executeWebhook] throws for it without issuing a
    request; and in the list [executeActions] returns, its entry is a
    [success: false] failure, the actions after it starting from the world
    the actions before it left. *)
Theorem zero_retries_issue_no_request
    (isValidUrl : string -> bool) (action : Action) (data : jsval)
    (context : Context) (before after : list Action) (w : World) :
  type_is action "webhook" = true ->
  retries action = Some 0 ->
  ~ In "Retries must be a number between 0 and 10"
       (validateAction isValidUrl action) /\
  (exists e,
     executeWebhook axios config action data context w = (Throw e, w)) /\
  (exists results w' rs1 w1 r rs2,
     executeActions axios config (before ++ action :: after) data context w
       = (Ok results, w') /\
     executeActions axios config before data context w = (Ok rs1, w1) /\
     executeActions axios config after data context w1 = (Ok rs2, w') /\
     results = rs1 ++ r :: rs2 /\
     results !! length before = Some r /\
     success r = false /\ Executor.action r = action).
Proof.
  intros Hty Hretries.
  assert (Hzero : forall w0, exists e,
            executeWebhook axios config action data context w0 = (Throw e, w0)).
  { intros w0. apply executeWebhook_no_attempts.
    unfold retries_of. rewrite Hretries. cbn. lia. }
  split; [| split; [apply Hzero |]].
  - unfold validateAction. rewrite Hty, Hretries. cbn [Z.eqb negb andb].
    repeat match goal with
           | |- context [if ?b then _ else _] => destruct b
           | |- context [match timeout action with _ => _ end] =>
               destruct (timeout action)
           end;
      cbn; intros H;
      repeat (destruct H as [H | H]; [discriminate |]); exact H.
  - rewrite executeActions_app.
    destruct (executeActions_returns before data context w)
      as (rs1 & w1 & Hbefore & Hmap1).
    rewrite Hbefore, executeActions_cons. unfold run_action, try_catchM.
    rewrite executeAction_webhook by assumption.
    destruct (Hzero w1) as (e & ->). cbn.
    destruct (executeActions_returns after data context w1)
      as (rs2 & w2 & Hafter & _).
    rewrite Hafter.
    exists (rs1 ++ failure action e :: rs2), w2, rs1, w1,
           (failure action e), rs2.
    repeat split; try assumption.
    apply list_lookup_middle. rewrite <- Hmap1. now rewrite length_map.
Qed.

(** C5 (as amended).  When the target answers 500 to three requests in a row
    and 200 afterwards, and three attempts are configured, the action ends
    in a failure: [executeWebhook] throws, at most three requests are issued
    (the 200 is never fetched), and the entry [executeActions] returns for
    the action has [success: false]. *)
Theorem three_failures_end_in_failure
    (action : Action) (data : jsval) (context : Context) (w : World) :
  type_is action "webhook" = true ->
  nonempty (url action) = true ->
  retries_of config action = 3 ->
  fails_three_times_then_succeeds axios w ->
  (exists e w',
     executeWebhook axios config action data context w = (Throw e, w') /\
     (attempts_between w w' <= 3)%nat) /\
  (exists r w',
     executeActions axios config [action] data context w = (Ok [r], w') /\
     success r = false /\ (attempts_between w w' <= 3)%nat).
Proof.
  intros Hty Hurl Hretries [Hfail _].
  assert (Hrun : executeWebhook axios config action data context w =
                 (Throw (ReferenceError "startTime is not defined"),
                  issued (requestConfig_of config action data context) w)).
  { apply executeWebhook_rejected with
      (e := AxiosError ("Request failed with status code " +:+ show_Z 500)
                       (Some 500)).
    - assumption.
    - lia.
    - rewrite Hfail by lia. reflexivity. }
  assert (Hcount : (attempts_between w
            (issued (requestConfig_of config action data context) w) <= 3)%nat).
  { unfold attempts_between, issued. cbn. rewrite length_app. cbn. lia. }
  split.
  - eexists _, _. split; [exact Hrun | exact Hcount].
  - rewrite executeActions_cons. unfold run_action, try_catchM.
    rewrite executeAction_webhook by assumption. rewrite Hrun. cbn.
    eexists _, _. split; [reflexivity |]. split; [reflexivity | exact Hcount].
Qed.

End Transport.

Lemma executeActions_captures_every_failure_example :
  exists results w',
    executeActions (always 200) defaults [hook; email; hook] JNull manual
      no_effects = (Ok results, w') /\
    map success results = [true; false; true] /\
    length (requests w') = 2%nat.
Proof. eexists _, _. repeat split. Qed.

Lemma zero_retries_issue_no_request_witness :
  validateAction accept_all_urls (with_retries 0 hook) = [] /\
  (~ In "Retries must be a number between 0 and 10"
        (validateAction accept_all_urls (with_retries 0 hook)) /\
   (exists e,
      executeWebhook (always 200) defaults (with_retries 0 hook) JNull manual
        no_effects = (Throw e, no_effects)) /\
   (exists results w' rs1 w1 r rs2,
      executeActions (always 200) defaults
        ([hook] ++ with_retries 0 hook :: [hook]) JNull manual no_effects
        = (Ok results, w') /\
      executeActions (always 200) defaults [hook] JNull manual no_effects
        = (Ok rs1, w1) /\
      executeActions (always 200) defaults [hook] JNull manual w1
        = (Ok rs2, w') /\
      results = rs1 ++ r :: rs2 /\
      results !! length [hook] = Some r /\
      success r = false /\ Executor.action r = with_retries 0 hook)).
Proof.
  split; [reflexivity |].
  apply (zero_retries_issue_no_request (always 200) defaults accept_all_urls
           (with_retries 0 hook) JNull manual [hook] [hook] no_effects);
    reflexivity.
Defined.

Lemma three_failures_end_in_failure_witness :
  (exists e w',
     executeWebhook recovers_after_three defaults hook JNull manual no_effects
       = (Throw e, w') /\
     (attempts_between no_effects w' <= 3)%nat) /\
  (exists r w',
     executeActions recovers_after_three defaults [hook] JNull manual
       no_effects = (Ok [r], w') /\
     success r = false /\ (attempts_between no_effects w' <= 3)%nat).
Proof.
  apply (three_failures_end_in_failure recovers_after_three defaults hook
           JNull manual no_effects); try reflexivity.
  split.
  - intros n rc Hn. cbn in Hn. unfold recovers_after_three.
    destruct (Nat.ltb_spec n 3); [reflexivity | lia].
  - intros rc. reflexivity.
Defined.

(** C5 (as stated) fails: with the default three attempts and a target that
    answers 500 three times and then 200, one request is issued and the
    result is a failure, not three requests and a success. *)
Lemma three_failures_then_success_is_a_failure :
  fails_three_times_then_succeeds recovers_after_three no_effects /\
  retries_of defaults hook = 3 /\
  exists w',
    executeWebhook recovers_after_three defaults hook JNull manual no_effects
      = (Throw (ReferenceError "startTime is not defined"), w') /\
    attempts_between no_effects w' = 1%nat /\
    executeActions recovers_after_three defaults [hook] JNull manual no_effects
      = (Ok [failure hook (ReferenceError "startTime is not defined")], w').
Proof.
  split; [| split; [reflexivity |]].
  - split.
    + intros n rc Hn. cbn in Hn. unfold recovers_after_three.
      destruct (Nat.ltb_spec n 3); [reflexivity | lia].
    + intros rc. reflexivity.
  - exists (issued (requestConfig_of defaults hook JNull manual) no_effects).
    split; [reflexivity | split; reflexivity].
Qed.

(** C3, at the failing input.  With three attempts configured, a target that
    answers 429 gets one request: no delay is slept, no second request is
    issued, and the result is the failure of the ReferenceError the catch
    block of the retry loop throws.  The same holds for a 500, for a target
    that cannot be reached, and for a 404. *)
Theorem rejected_request_is_not_retried :
  let action := with_retries 3 hook in
  let once :=
    {| requests := [requestConfig_of defaults action JNull manual];
       sleeps := [] |} in
  let failed :=
    Ok [failure action (ReferenceError "startTime is not defined")] in
  executeActions (always 429) defaults [action] JNull manual no_effects
    = (failed, once) /\
  executeActions (always 500) defaults [action] JNull manual no_effects
    = (failed, once) /\
  executeActions unreachable defaults [action] JNull manual no_effects
    = (failed, once) /\
  executeActions (always 404) defaults [action] JNull manual no_effects
    = (failed, once).
Proof. repeat split. Qed.

End ExecutorFacts.

(** ** The job scheduler *)

Module SchedulerFacts.
Import Js Rules Config Scheduler SchedulerVocabulary.

Section Cron.

Variable cron_validate : string -> bool.

(** *** [scheduleRule] *)

Lemma stop_existing_jobs rule s : jobs (stop_existing rule s) = jobs s.
Proof. unfold stop_existing. now destruct (jobs s !! id rule). Qed.

Lemma stop_existing_length rule s :
  length (tasks (stop_existing rule s)) = length (tasks s).
Proof.
  unfold stop_existing. destruct (jobs s !! id rule); [| reflexivity].
  cbn. apply length_alter.
Qed.

Lemma stop_existing_lookup rule s job :
  tasks (stop_existing rule s) !! job =
  if bool_decide (jobs s !! id rule = Some job)
  then set_running false <$> tasks s !! job
  else tasks s !! job.
Proof.
  unfold stop_existing. destruct (jobs s !! id rule) as [old |] eqn:Hold.
  - cbn. case_bool_decide as Heq.
    + injection Heq as ->. apply list_lookup_alter_eq.
    + apply list_lookup_alter_ne. congruence.
  - now rewrite bool_decide_eq_false_2.
Qed.

(** With a valid expression: the old job is stopped, a new task is created
    and started, and the table entry of the rule id is set to it. *)
Lemma scheduleRule_valid rule s :
  valid_schedule cron_validate rule ->
  scheduleRule cron_validate rule s =
  (Ok tt,
   {| jobs := <[id rule := length (tasks s)]> (jobs s);
      isRunning := isRunning s;
      tasks := tasks (stop_existing rule s) ++
               [ {| expression := default "" (schedule rule);
                    task_rule := Some rule; running := true |} ] |}).
Proof.
  intros [Hsched Hvalid]. unfold scheduleRule. rewrite Hsched. cbn [negb].
  unfold bind, try_catchM. rewrite Hvalid. cbn [negb].
  unfold stop_existing.
  destruct (jobs s !! id rule) as [old |]; cbn.
  - rewrite length_alter. f_equal. f_equal.
    rewrite alter_app_r_alt by (rewrite length_alter; lia).
    rewrite length_alter, Nat.sub_diag. reflexivity.
  - f_equal. f_equal.
    rewrite alter_app_r_alt by lia. now rewrite Nat.sub_diag.
Qed.

(** With an expression that fails validation: the old job is stopped all the
    same, the error is caught, and the table is as it was. *)
Lemma scheduleRule_invalid rule s :
  invalid_schedule cron_validate rule ->
  scheduleRule cron_validate rule s = (Ok tt, stop_existing rule s).
Proof.
  intros [Hsched Hinvalid]. unfold scheduleRule. rewrite Hsched. cbn [negb].
  unfold bind, try_catchM. rewrite Hinvalid. cbn [negb].
  unfold stop_existing.
  destruct (jobs s !! id rule) as [old |]; cbn; [reflexivity |].
  now destruct s.
Qed.

(** Without a schedule nothing happens. *)
Lemma scheduleRule_unscheduled rule s :
  nonempty (schedule rule) = false ->
  scheduleRule cron_validate rule s = (Ok tt, s).
Proof. intros H. unfold scheduleRule. now rewrite H. Qed.

(** [scheduleRule] never throws. *)
Lemma scheduleRule_returns rule s :
  exists s', scheduleRule cron_validate rule s = (Ok tt, s').
Proof.
  destruct (nonempty (schedule rule)) eqn:Hsched.
  - destruct (cron_validate (default "" (schedule rule))) eqn:Hvalid.
    + rewrite scheduleRule_valid by now split. eauto.
    + rewrite scheduleRule_invalid by now split. eauto.
  - rewrite scheduleRule_unscheduled by assumption. eauto.
Qed.

(** *** [getJobsStatus] *)

(** The first entry of the table ends the loop: reading [job.running] gives
    [undefined], calling [job.nextDate()] throws. *)
Lemma status_entries_throws entry (rest : list (string * nat)) status s :
  status_entries (entry :: rest) status s = (Throw status_failure, s).
Proof. destruct entry as [ruleId job]. reflexivity. Qed.

Lemma getJobsStatus_empty s :
  jobs s = ∅ -> getJobsStatus s = (Ok [], s).
Proof.
  intros Hempty. unfold getJobsStatus.
  now rewrite Hempty, map_to_list_empty.
Qed.

Lemma getJobsStatus_throws s i job :
  jobs s !! i = Some job -> getJobsStatus s = (Throw status_failure, s).
Proof.
  intros Hjob. unfold getJobsStatus.
  destruct (map_to_list (jobs s)) as [| entry rest] eqn:Hlist.
  - apply map_to_list_empty_iff in Hlist.
    rewrite Hlist, lookup_empty in Hjob. discriminate.
  - apply status_entries_throws.
Qed.

(** [getJobsStatus] changes nothing. *)
Lemma getJobsStatus_state s : snd (getJobsStatus s) = s.
Proof.
  unfold getJobsStatus.
  destruct (map_to_list (jobs s)) as [| entry rest]; [reflexivity |].
  now rewrite status_entries_throws.
Qed.

(** *** The table owns every started task *)

Lemma owns_running_initial : owns_running initial.
Proof. intros job t Hjob. cbn in Hjob. discriminate. Qed.

Lemma stop_existing_owns_running rule s :
  owns_running s -> owns_running (stop_existing rule s).
Proof.
  intros Hinv job t Hjob Hrun.
  rewrite stop_existing_lookup in Hjob. rewrite stop_existing_jobs.
  case_bool_decide as Hold.
  - destruct (tasks s !! job) as [t0 |]; [| discriminate].
    injection Hjob as <-. discriminate.
  - now apply Hinv.
Qed.

Lemma scheduleRule_owns_running rule s :
  owns_running s -> owns_running (snd (scheduleRule cron_validate rule s)).
Proof.
  intros Hinv.
  destruct (nonempty (schedule rule)) eqn:Hsched;
    [| now rewrite scheduleRule_unscheduled].
  destruct (cron_validate (default "" (schedule rule))) eqn:Hvalid.
  - rewrite scheduleRule_valid by now split. cbn.
    intros job t Hjob Hrun. cbn in *.
    destruct (decide (job < length (tasks s))%nat) as [Hlt | Hge].
    + rewrite lookup_app_l in Hjob by now rewrite stop_existing_length.
      rewrite stop_existing_lookup in Hjob.
      case_bool_decide as Hold.
      * destruct (tasks s !! job) as [t0 |]; [| discriminate].
        injection Hjob as <-. discriminate.
      * destruct (Hinv job t Hjob Hrun) as (r & Hr & Htable).
        exists r. split; [assumption |].
        rewrite lookup_insert_ne; [assumption |]. congruence.
    + rewrite lookup_app_r in Hjob by (rewrite stop_existing_length; lia).
      rewrite stop_existing_length in Hjob.
      destruct (job - length (tasks s))%nat as [| n] eqn:Hn;
        [| cbn in Hjob; discriminate].
      injection Hjob as <-. exists rule. split; [reflexivity |].
      replace job with (length (tasks s)) by lia.
      apply lookup_insert_eq.
  - rewrite scheduleRule_invalid by now split.
    now apply stop_existing_owns_running.
Qed.

Lemma scheduleRules_owns_running rules s :
  owns_running s ->
  exists s', scheduleRules cron_validate rules s = (Ok tt, s') /\
             owns_running s'.
Proof.
  revert s. induction rules as [| rule rest IH]; intros s Hinv.
  - exists s. now split.
  - cbn [scheduleRules]. unfold bind.
    pose proof (scheduleRule_owns_running rule s Hinv) as Hstep.
    destruct (scheduleRule_returns rule s) as (s1 & Hs1).
    rewrite Hs1 in *. now apply IH.
Qed.

Lemma unscheduleRule_owns_running i s :
  owns_running s -> owns_running (snd (unscheduleRule i s)).
Proof.
  intros Hinv. unfold unscheduleRule.
  destruct (jobs s !! i) as [old |] eqn:Hold; [| exact Hinv].
  cbn. intros job t Hjob Hrun. cbn in *.
  destruct (decide (old = job)) as [-> | Hne].
  - rewrite list_lookup_alter_eq in Hjob.
    destruct (tasks s !! job); [| discriminate].
    injection Hjob as <-. discriminate.
  - rewrite list_lookup_alter_ne in Hjob by assumption.
    destruct (Hinv job t Hjob Hrun) as (r & Hr & Htable).
    exists r. split; [assumption |].
    rewrite lookup_delete_ne; [assumption |]. congruence.
Qed.

(** After stopping the jobs of a list of table entries, a task that is still
    started is none of them and is as it was. *)
Lemma stop_entries_running (l : list (string * nat)) (ts : list Task)
    (job : nat) (t : Task) :
  foldr (fun entry ts => alter (set_running false) (snd entry) ts) ts l !! job
    = Some t ->
  running t = true ->
  ts !! job = Some t /\ job ∉ l.*2.
Proof.
  revert t. induction l as [| entry rest IH]; intros t Hjob Hrun.
  - split; [assumption | apply not_elem_of_nil].
  - cbn in Hjob. destruct (decide (snd entry = job)) as [Heq | Hne].
    + rewrite Heq, list_lookup_alter_eq in Hjob.
      destruct (foldr _ ts rest !! job); [| discriminate].
      injection Hjob as <-. discriminate.
    + rewrite list_lookup_alter_ne in Hjob by assumption.
      destruct (IH t Hjob Hrun) as [Hts Hnot]. split; [assumption |].
      cbn. apply not_elem_of_cons. split; [congruence | assumption].
Qed.

Lemma stop_owns_running s : owns_running s -> owns_running (snd (stop s)).
Proof.
  intros Hinv. unfold stop. destruct (isRunning s); cbn; [| exact Hinv].
  intros job t Hjob Hrun. cbn in *.
  destruct (stop_entries_running _ _ _ _ Hjob Hrun) as [Hts Hnot].
  destruct (Hinv job t Hts Hrun) as (r & _ & Htable).
  exfalso. apply Hnot. apply list_elem_of_fmap.
  exists (id r, job). split; [reflexivity |].
  now apply elem_of_map_to_list.
Qed.

Lemma updateScheduledRule_owns_running rule s :
  owns_running s ->
  owns_running (snd (updateScheduledRule cron_validate rule s)).
Proof.
  intros Hinv. unfold updateScheduledRule.
  destruct (nonempty (schedule rule)).
  - now apply scheduleRule_owns_running.
  - now apply unscheduleRule_owns_running.
Qed.

Lemma start_owns_running config getScheduledRules s :
  owns_running s ->
  owns_running (snd (start cron_validate config getScheduledRules s)).
Proof.
  intros Hinv. unfold start.
  destruct (isRunning s); [exact Hinv |].
  destruct (cronEnabled config); cbn [negb]; [| exact Hinv].
  unfold try_catchM, bind, loadScheduledRules, try_catchM, bind.
  destruct getScheduledRules as [rules | e]; [| exact Hinv].
  destruct (scheduleRules_owns_running rules s Hinv) as (s' & -> & Hs').
  exact Hs'.
Qed.

Lemma reload_owns_running config getScheduledRules s :
  owns_running s ->
  owns_running (snd (reload cron_validate config getScheduledRules s)).
Proof.
  intros Hinv. unfold reload, bind.
  pose proof (stop_owns_running s Hinv) as Hstop.
  destruct (stop s) as [[[] | e] s1] eqn:Hs1; cbn in Hstop.
  - now apply start_owns_running.
  - exact Hstop.
Qed.

(** *** [testCronExpression] *)

(** With an expression [cron.validate] accepts: the task is created, the
    first [job.nextDate()] throws, and the handler turns the error into the
    answer; [job.stop()] is not reached. *)
Lemma testCronExpression_valid expression s :
  cron_validate expression = true ->
  testCronExpression cron_validate expression s =
  (Ok (Invalid "job.nextDate is not a function"),
   with_preview_task expression s).
Proof.
  intros Hvalid. unfold testCronExpression, try_catchM. now rewrite Hvalid.
Qed.

Lemma testCronExpression_invalid expression s :
  cron_validate expression = false ->
  testCronExpression cron_validate expression s =
  (Ok (Invalid "Invalid cron expression format"), s).
Proof.
  intros Hinvalid. unfold testCronExpression, try_catchM.
  now rewrite Hinvalid.
Qed.

Lemma testCronExpression_owns_running expression s :
  owns_running s ->
  owns_running (snd (testCronExpression cron_validate expression s)).
Proof.
  intros Hinv.
  destruct (cron_validate expression) eqn:Hvalid.
  - rewrite testCronExpression_valid by assumption. cbn.
    intros job t Hjob Hrun. cbn in *.
    destruct (decide (job < length (tasks s))%nat) as [Hlt | Hge].
    + rewrite lookup_app_l in Hjob by assumption. now apply Hinv.
    + rewrite lookup_app_r in Hjob by lia.
      destruct (job - length (tasks s))%nat;
        [| cbn in Hjob; discriminate].
      injection Hjob as <-. discriminate.
  - now rewrite testCronExpression_invalid.
Qed.

Lemma testCronExpression_returns expression s :
  exists r s',
    testCronExpression cron_validate expression s = (Ok r, s').
Proof.
  destruct (cron_validate expression) eqn:Hvalid.
  - rewrite testCronExpression_valid by assumption. eauto.
  - rewrite testCronExpression_invalid by assumption. eauto.
Qed.

Section Reachable.

Variable config : Config.
Variable getScheduledRules : result (list Rule).

Lemma reachable_owns_running s :
  reachable cron_validate config getScheduledRules s ->
  owns_running s.
Proof.
  induction 1.
  - apply owns_running_initial.
  - now apply scheduleRule_owns_running.
  - now apply unscheduleRule_owns_running.
  - now apply updateScheduledRule_owns_running.
  - now apply start_owns_running.
  - now apply stop_owns_running.
  - now apply reload_owns_running.
  - now rewrite getJobsStatus_state.
  - now apply testCronExpression_owns_running.
Qed.

(** C10, what the code does.  In a state the scheduler can reach, let the
    table hold a started job for the id of [rule], and let
    [scheduleRule(rule)] be called with a cron expression that fails
    validation.  The call returns without throwing; the job is stopped; the
    table is unchanged and still holds that job; no task of that rule id is
    started any more.  But [getJobsStatus] reports no entry for the id: with
    the job in the table it throws the TypeError of [job.nextDate()]. *)
Theorem stale_job_is_not_reported
    (rule : Rule) (job : nat) (s : State) :
  reachable cron_validate config getScheduledRules s ->
  jobs s !! id rule = Some job ->
  fires s job = true ->
  invalid_schedule cron_validate rule ->
  exists s' task,
    scheduleRule cron_validate rule s = (Ok tt, s') /\
    tasks s !! job = Some task /\
    tasks s' !! job = Some (set_running false task) /\
    fires s' job = false /\
    jobs s' = jobs s /\
    jobs s' !! id rule = Some job /\
    (forall h t r, tasks s' !! h = Some t -> task_rule t = Some r ->
                   id r = id rule -> running t = false) /\
    getJobsStatus s' =
      (Throw (TypeError "job.nextDate is not a function"), s').
Proof.
  intros Hreach Hjob Hfires Hinvalid.
  apply reachable_owns_running in Hreach.
  unfold fires in Hfires.
  destruct (tasks s !! job) as [task |] eqn:Htask; [| discriminate].
  exists (stop_existing rule s), task.
  assert (Hstopped :
            tasks (stop_existing rule s) !! job
            = Some (set_running false task)).
  { rewrite stop_existing_lookup, bool_decide_eq_true_2 by assumption.
    now rewrite Htask. }
  split; [now apply scheduleRule_invalid |].
  split; [reflexivity |].
  split; [assumption |].
  split; [unfold fires; now rewrite Hstopped |].
  split; [apply stop_existing_jobs |].
  split; [now rewrite stop_existing_jobs |].
  split.
  - intros h t r Hh Hr Hid.
    destruct (running t) eqn:Hrun; [| reflexivity].
    rewrite stop_existing_lookup in Hh.
    case_bool_decide as Hold.
    + destruct (tasks s !! h); [| discriminate].
      injection Hh as <-. discriminate.
    + destruct (Hreach h t Hh Hrun) as (r' & Hr' & Htable).
      exfalso. apply Hold. congruence.
  - apply (getJobsStatus_throws (stop_existing rule s) (id rule) job).
    now rewrite stop_existing_jobs.
Qed.

End Reachable.

(** C6, what the code does.  Calling [scheduleRule] twice for the same rule
    id, each time with a valid cron expression: the second call stops the
    task the first call started, starts a task of its own and makes it the
    table entry of the id, so the table holds one job for the id.  But
    [getJobsStatus] afterwards reports no entry: it throws the TypeError of
    [job.nextDate()]. *)
Theorem rescheduled_job_is_not_reported
    (rule1 rule2 : Rule) (s : State) :
  id rule1 = id rule2 ->
  valid_schedule cron_validate rule1 ->
  valid_schedule cron_validate rule2 ->
  exists s1 s2 first second,
    scheduleRule cron_validate rule1 s = (Ok tt, s1) /\
    jobs s1 !! id rule1 = Some first /\
    fires s1 first = true /\
    scheduleRule cron_validate rule2 s1 = (Ok tt, s2) /\
    fires s2 first = false /\
    jobs s2 !! id rule2 = Some second /\
    second <> first /\
    tasks s2 !! second =
      Some {| expression := default "" (schedule rule2);
              task_rule := Some rule2; running := true |} /\
    getJobsStatus s2 =
      (Throw (TypeError "job.nextDate is not a function"), s2).
Proof.
  intros Hid Hvalid1 Hvalid2.
  pose proof (scheduleRule_valid rule1 s Hvalid1) as Hs1.
  set (s1 := {| jobs := <[id rule1 := length (tasks s)]> (jobs s);
                isRunning := isRunning s;
                tasks := tasks (stop_existing rule1 s) ++
                  [ {| expression := default "" (schedule rule1);
                       task_rule := Some rule1; running := true |} ] |})
    in *.
  pose proof (scheduleRule_valid rule2 s1 Hvalid2) as Hs2.
  set (s2 := {| jobs := <[id rule2 := length (tasks s1)]> (jobs s1);
                isRunning := isRunning s1;
                tasks := tasks (stop_existing rule2 s1) ++
                  [ {| expression := default "" (schedule rule2);
                       task_rule := Some rule2; running := true |} ] |})
    in *.
  assert (Htable1 : jobs s1 !! id rule1 = Some (length (tasks s)))
    by apply lookup_insert_eq.
  assert (Hfirst : tasks s1 !! length (tasks s) =
            Some {| expression := default "" (schedule rule1);
                    task_rule := Some rule1; running := true |}).
  { cbn. apply list_lookup_middle. now rewrite stop_existing_length. }
  assert (Hlen1 : length (tasks s1) = S (length (tasks s))).
  { cbn. rewrite length_app, stop_existing_length. cbn. lia. }
  assert (Hsecond : tasks s2 !! length (tasks s1) =
            Some {| expression := default "" (schedule rule2);
                    task_rule := Some rule2; running := true |}).
  { cbn [s2 tasks]. apply list_lookup_middle.
    now rewrite stop_existing_length. }
  assert (Htable2 : jobs s2 !! id rule2 = Some (length (tasks s1)))
    by apply lookup_insert_eq.
  exists s1, s2, (length (tasks s)), (length (tasks s1)).
  split; [assumption |].
  split; [assumption |].
  split; [unfold fires; now rewrite Hfirst |].
  split; [assumption |].
  split.
  { unfold fires. cbn [s2 tasks].
    rewrite lookup_app_l by (rewrite stop_existing_length; lia).
    rewrite stop_existing_lookup, bool_decide_eq_true_2 by congruence.
    now rewrite Hfirst. }
  split; [assumption |].
  split; [lia |].
  split; [assumption |].
  exact (getJobsStatus_throws s2 (id rule2) (length (tasks s1)) Htable2).
Qed.

(** C8, what the code does.  For an expression [cron.validate] accepts,
    ["0 */5 * * * *"] included, [testCronExpression] returns no date at
    all: the first [job.nextDate()] throws, the handler catches the
    TypeError, and the answer is [{ valid: false }] with its message.  The
    task created for the preview stays, not started.  For an expression
    that fails validation the answer is [{ valid: false }] with "Invalid
    cron expression format"; in neither case does the call throw. *)
Theorem preview_returns_no_dates (expression : string) (s : State) :
  cron_validate expression = true ->
  testCronExpression cron_validate expression s =
    (Ok (Invalid "job.nextDate is not a function"),
     with_preview_task expression s) /\
  (forall dates,
     fst (testCronExpression cron_validate expression s)
     <> Ok (Valid dates)) /\
  (forall refused,
     cron_validate refused = false ->
     testCronExpression cron_validate refused s =
       (Ok (Invalid "Invalid cron expression format"), s)).
Proof.
  intros Hvalid.
  rewrite testCronExpression_valid by assumption.
  split; [reflexivity |]. split; [discriminate |].
  intros refused Hrefused. now apply testCronExpression_invalid.
Qed.

End Cron.

Lemma stale_job_is_not_reported_witness :
  let s := snd (scheduleRule six_fields (rule_with "r1" "0 */5 * * * *")
                  initial) in
  let rule := rule_with "r1" "every five minutes" in
  exists s' task,
    scheduleRule six_fields rule s = (Ok tt, s') /\
    tasks s !! 0%nat = Some task /\
    tasks s' !! 0%nat = Some (set_running false task) /\
    fires s' 0%nat = false /\
    jobs s' = jobs s /\
    jobs s' !! id rule = Some 0%nat /\
    (forall h t r, tasks s' !! h = Some t -> task_rule t = Some r ->
                   id r = id rule -> running t = false) /\
    getJobsStatus s' =
      (Throw (TypeError "job.nextDate is not a function"), s').
Proof.
  apply (stale_job_is_not_reported six_fields defaults (Ok [])
           (rule_with "r1" "every five minutes") 0%nat
           (snd (scheduleRule six_fields (rule_with "r1" "0 */5 * * * *")
                   initial))).
  - apply reach_scheduleRule. apply reach_initial.
  - reflexivity.
  - reflexivity.
  - split; reflexivity.
Defined.

Lemma rescheduled_job_is_not_reported_witness :
  exists s1 s2 first second,
    scheduleRule six_fields (rule_with "r1" "0 */5 * * * *") initial
      = (Ok tt, s1) /\
    jobs s1 !! "r1" = Some first /\
    fires s1 first = true /\
    scheduleRule six_fields (rule_with "r1" "0 0 * * * *") s1 = (Ok tt, s2) /\
    fires s2 first = false /\
    jobs s2 !! "r1" = Some second /\
    second <> first /\
    tasks s2 !! second =
      Some {| expression := "0 0 * * * *";
              task_rule := Some (rule_with "r1" "0 0 * * * *");
              running := true |} /\
    getJobsStatus s2 =
      (Throw (TypeError "job.nextDate is not a function"), s2).
Proof.
  apply (rescheduled_job_is_not_reported six_fields
           (rule_with "r1" "0 */5 * * * *") (rule_with "r1" "0 0 * * * *")
           initial).
  - reflexivity.
  - split; reflexivity.
  - split; reflexivity.
Defined.

Lemma preview_returns_no_dates_witness :
  testCronExpression six_fields "0 */5 * * * *" initial =
    (Ok (Invalid "job.nextDate is not a function"),
     with_preview_task "0 */5 * * * *" initial) /\
  (forall dates,
     fst (testCronExpression six_fields "0 */5 * * * *" initial)
     <> Ok (Valid dates)) /\
  (forall refused,
     six_fields refused = false ->
     testCronExpression six_fields refused initial =
       (Ok (Invalid "Invalid cron expression format"), initial)).
Proof.
  apply (preview_returns_no_dates six_fields "0 */5 * * * *" initial).
  reflexivity.
Defined.

End SchedulerFacts.

(** ** The condition tools *)

Module EvaluatorToolsFacts.
Import Js Rules Evaluator EvaluatorVocabulary EvaluatorTools JsFacts.
Import EvaluatorFacts.

Lemma Forall_indexed (P : jsval -> Prop) i items :
  Forall P items -> Forall (fun kv => P (snd kv)) (indexed_from i items).
Proof.
  intros H. revert i. induction H as [| x rest Hx _ IH]; intros i; cbn.
  - constructor.
  - constructor; [exact Hx | apply IH].
Qed.

(** Induction on a value with the hypothesis for the value of every entry. *)
Lemma jsval_entries_ind (P : jsval -> Prop) :
  (forall c, Forall (fun kv => P (snd kv)) (entries c) -> P c) ->
  forall c, P c.
Proof.
  intros Hnode c.
  induction c as [| | b | n | s | items IH | fields IH] using jsval_ind;
    apply Hnode; cbn.
  - constructor.
  - constructor.
  - constructor.
  - constructor.
  - constructor.
  - now apply Forall_indexed.
  - exact IH.
Qed.

Lemma extractVars_by_entries c vars :
  extractVars c vars = extract_entries (entries c) vars.
Proof.
  destruct c as [| | b | n | s | items | fields]; try reflexivity.
  - cbn. unfold extract_entries. generalize O. revert vars.
    induction items as [| value rest IH]; intros vars i; [reflexivity |].
    cbn. apply IH.
  - cbn. unfold extract_entries. revert vars.
    induction fields as [| [key value] rest IH]; intros vars; [reflexivity |].
    cbn. apply IH.
Qed.

Lemma index_key_not_var i : String.eqb (index_key i) "var" = false.
Proof. unfold index_key. destruct (Nat.to_uint i); reflexivity. Qed.

(** Under a key other than [var], an entry is handled like the value
    itself. *)
(** Under a key other than [var], an entry is handled like its value. *)
Lemma extract_entry_plain value :
  forall key vars,
    String.eqb key "var" = false ->
    extract_entry extractVars key value vars = extractVars value vars.
Proof.
  induction value as [| | b | n | s | items IH | fields IH] using jsval_ind;
    intros key vars Hkey; try reflexivity.
  cbn [extract_entry]. rewrite Hkey. cbn [andb].
  rewrite extractVars_by_entries. cbn [entries]. unfold extract_entries.
  generalize O. revert vars.
  induction IH as [| item rest Hitem _ IHrest]; intros vars i; [reflexivity |].
  cbn [fold_left indexed_from fst snd].
  rewrite (Hitem (index_key i) vars (index_key_not_var i)).
  apply IHrest.
Qed.

(** What the loop of [extractVars] does with one entry. *)
Lemma extract_entry_spec key value vars :
  extract_entry extractVars key value vars =
  match value with
  | JArray (first :: _) =>
      if String.eqb key "var" then set_add first vars
      else extractVars value vars
  | _ => extractVars value vars
  end.
Proof.
  destruct (String.eqb key "var") eqn:Hkey.
  - destruct value as [| | b | n | s | [| first rest] | fields];
      try reflexivity.
    + cbn [extract_entry]. now rewrite Hkey.
    + cbn [extract_entry]. now rewrite Hkey.
  - rewrite extract_entry_plain by assumption.
    now destruct value as [| | b | n | s | [| first rest] | fields].
Qed.

Lemma extract_entries_cons key value rest vars :
  extract_entries ((key, value) :: rest) vars =
  extract_entries rest (extract_entry extractVars key value vars).
Proof. reflexivity. Qed.

(** *** The Set only grows *)

Lemma set_add_keeps v vars x : In x vars -> In x (set_add v vars).
Proof.
  intros Hx. unfold set_add.
  destruct (existsb (same_value v) vars); [assumption |].
  apply in_or_app. now left.
Qed.

Lemma same_value_eq a b : same_value a b = true -> a = b.
Proof.
  destruct a, b; cbn; try discriminate; intros H; try reflexivity.
  - apply Bool.eqb_prop in H. now subst.
  - apply Z.eqb_eq in H. now subst.
  - apply String.eqb_eq in H. now subst.
Qed.

Lemma set_add_has v vars : In v (set_add v vars).
Proof.
  unfold set_add. destruct (existsb (same_value v) vars) eqn:Hex.
  - apply existsb_exists in Hex as (x & Hx & Hsame).
    apply same_value_eq in Hsame. now subst.
  - apply in_or_app. right. now left.
Qed.

Lemma set_add_in v vars x : In x (set_add v vars) -> In x vars \/ x = v.
Proof.
  unfold set_add. destruct (existsb (same_value v) vars); [now left |].
  intros H. apply in_app_or in H as [H | [H | []]]; [now left | now right].
Qed.

Lemma extractVars_keeps c :
  forall vars x, In x vars -> In x (extractVars c vars).
Proof.
  induction c as [c IH] using jsval_entries_ind.
  intros vars x Hx. rewrite extractVars_by_entries.
  revert vars Hx.
  induction IH as [| [key value] rest Hvalue _ IHrest]; intros vars Hx;
    [exact Hx |].
  rewrite extract_entries_cons. apply IHrest.
  rewrite extract_entry_spec.
  destruct value as [| | b | n | s | [| first more] | fields];
    try (now apply Hvalue).
  destruct (String.eqb key "var"); [now apply set_add_keeps |].
  now apply Hvalue.
Qed.

Lemma extract_entry_keeps key value vars x :
  In x vars -> In x (extract_entry extractVars key value vars).
Proof.
  intros Hx. rewrite extract_entry_spec.
  destruct value as [| | b | n | s | [| first more] | fields];
    try (now apply extractVars_keeps).
  destruct (String.eqb key "var");
    [now apply set_add_keeps | now apply extractVars_keeps].
Qed.

Lemma extract_entries_keeps es vars x :
  In x vars -> In x (extract_entries es vars).
Proof.
  revert vars. induction es as [| [key value] rest IH]; intros vars Hx;
    [exact Hx |].
  rewrite extract_entries_cons. apply IH. now apply extract_entry_keeps.
Qed.

(** *** What is collected *)

Lemma extract_entries_sound c es :
  (forall kv, In kv es -> In kv (entries c)) ->
  Forall (fun kv =>
            forall vars v,
              In v (extractVars (snd kv) vars) ->
              In v vars \/
              exists rest, occurs "var" (JArray (v :: rest)) (snd kv)) es ->
  forall vars v,
    In v (extract_entries es vars) ->
    In v vars \/ exists rest, occurs "var" (JArray (v :: rest)) c.
Proof.
  intros Hsub IHes.
  induction IHes as [| [key value] rest Hvalue _ IHrest]; intros vars v Hv;
    [now left |].
  rewrite extract_entries_cons in Hv.
  destruct (IHrest (fun kv H => Hsub kv (or_intror H)) _ _ Hv)
    as [Hstep | Hocc]; [| now right].
  assert (Hin : In (key, value) (entries c)) by (apply Hsub; now left).
  rewrite extract_entry_spec in Hstep.
  assert (Hrec : In v (extractVars value vars) ->
                 In v vars \/
                 exists rest, occurs "var" (JArray (v :: rest)) c).
  { intros H. destruct (Hvalue vars v H) as [Hold | (more & Hocc)];
      [now left | right].
    exists more. now apply occurs_below with (key := key) (sub := value). }
  destruct value as [| | b | n | s | [| first more] | fields];
    try (now apply Hrec).
  destruct (String.eqb key "var") eqn:Hkey; [| now apply Hrec].
  apply String.eqb_eq in Hkey. subst key.
  apply set_add_in in Hstep as [Hold | ->]; [now left | right].
  exists more. now apply occurs_here.
Qed.

Lemma extractVars_sound c :
  forall vars v,
    In v (extractVars c vars) ->
    In v vars \/ exists rest, occurs "var" (JArray (v :: rest)) c.
Proof.
  induction c as [c IH] using jsval_entries_ind.
  intros vars v. rewrite extractVars_by_entries.
  now apply extract_entries_sound.
Qed.

Lemma extract_entries_reaches es key value v :
  In (key, value) es ->
  (forall vars, In v (extract_entry extractVars key value vars)) ->
  forall vars, In v (extract_entries es vars).
Proof.
  induction es as [| [k x] rest IH]; intros Hin Hstep vars; [destruct Hin |].
  rewrite extract_entries_cons.
  destruct Hin as [[= -> ->] | Hin].
  - apply extract_entries_keeps. apply Hstep.
  - now apply IH.
Qed.

Lemma extractVars_complete v c :
  collected v c -> forall vars, In v (extractVars c vars).
Proof.
  induction 1 as [c rest Hin | c key sub Hin Hplain _ IH]; intros vars;
    rewrite extractVars_by_entries.
  - apply (extract_entries_reaches _ "var" (JArray (v :: rest)));
      [assumption |].
    intros vars'. rewrite extract_entry_spec. cbn. apply set_add_has.
  - apply (extract_entries_reaches _ key sub); [assumption |].
    intros vars'. rewrite extract_entry_spec.
    destruct sub as [| | b | n | s | [| first more] | fields];
      try apply IH.
    destruct (String.eqb key "var"); [discriminate | apply IH].
Qed.

(** *** No name twice *)

Lemma set_add_names v vars :
  NoDup (omap name_of vars) -> NoDup (omap name_of (set_add v vars)).
Proof.
  intros Hnd. unfold set_add.
  destruct (existsb (same_value v) vars) eqn:Hex; [assumption |].
  rewrite omap_app. destruct v as [| | b | n | s | items | fields]; cbn;
    try (now rewrite app_nil_r).
  apply NoDup_app. split; [assumption |]. split; [| apply NoDup_singleton].
  intros name Hname Hs. apply list_elem_of_singleton in Hs. subst name.
  apply list_elem_of_omap in Hname as (x & Hx & Hname).
  destruct x; try discriminate. injection Hname as ->.
  assert (Htrue : existsb (same_value (JStr s)) vars = true).
  { apply existsb_exists. exists (JStr s). split.
    - now apply list_elem_of_In.
    - cbn. apply String.eqb_refl. }
  congruence.
Qed.

Lemma extractVars_names c :
  forall vars,
    NoDup (omap name_of vars) -> NoDup (omap name_of (extractVars c vars)).
Proof.
  induction c as [c IH] using jsval_entries_ind.
  intros vars. rewrite extractVars_by_entries. revert vars.
  induction IH as [| [key value] rest Hvalue _ IHrest]; intros vars Hnd;
    [exact Hnd |].
  rewrite extract_entries_cons. apply IHrest.
  rewrite extract_entry_spec.
  destruct value as [| | b | n | s | [| first more] | fields];
    try (now apply Hvalue).
  destruct (String.eqb key "var");
    [now apply set_add_names | now apply Hvalue].
Qed.

(** X1.  Every value [extractVariables] returns is the first element of the
    array under a [var] key somewhere in the condition.  So a condition in
    which no [var] key has a non-empty array as its value, the short form
    [{"var": "name"}] included, yields no variable at all. *)
Theorem extractVariables_only_var_arguments (condition : jsval) :
  (forall v, In v (extractVariables condition) ->
             exists rest, occurs "var" (JArray (v :: rest)) condition) /\
  ((forall v rest, ~ occurs "var" (JArray (v :: rest)) condition) ->
   extractVariables condition = []).
Proof.
  assert (Hsound : forall v, In v (extractVariables condition) ->
            exists rest, occurs "var" (JArray (v :: rest)) condition).
  { intros v Hv. unfold extractVariables in Hv.
    apply extractVars_sound in Hv as [[] | Hocc]. exact Hocc. }
  split; [exact Hsound |].
  intros Hnone. destruct (extractVariables condition) as [| v l] eqn:Hl;
    [reflexivity |].
  destruct (Hsound v (or_introl eq_refl)) as (rest & Hocc).
  now apply Hnone in Hocc.
Qed.

Example documented_condition_has_no_variables :
  extractVariables documented_condition = [].
Proof. reflexivity. Qed.

(** X2.  The first element of the array under a [var] key is returned
    whenever that entry is reached: from the condition down to it, no other
    [var] entry with a non-empty array is entered. *)
Theorem extractVariables_collects (v condition : jsval) :
  collected v condition -> In v (extractVariables condition).
Proof. intros H. now apply extractVars_complete. Qed.

Lemma extractVariables_collects_witness :
  In (JStr "a") (extractVariables var_twice).
Proof.
  apply (extractVariables_collects (JStr "a") var_twice).
  apply collected_below with
    (key := "==")
    (sub := JArray [ JObject [("var", JArray [JStr "a"])];
                     JObject [("var", JArray [JStr "a"])] ]).
  - cbn. now left.
  - reflexivity.
  - apply collected_below with
      (key := "0") (sub := JObject [("var", JArray [JStr "a"])]).
    + cbn. now left.
    + reflexivity.
    + apply collected_here with (rest := []). cbn. now left.
Defined.

(** X3.  [extractVariables] lists no variable name twice, however often the
    condition reads it. *)
Theorem extractVariables_names_once (condition : jsval) :
  NoDup (omap name_of (extractVariables condition)).
Proof. apply extractVars_names. cbn. constructor. Qed.

Example var_twice_variables : extractVariables var_twice = [JStr "a"].
Proof. reflexivity. Qed.

(** *** Validation and the syntax test *)

Lemma validateCondition_of_object c :
  is_object c = true ->
  validateCondition c = validateJsonLogicOperators c.
Proof.
  intros Hc. unfold validateCondition.
  destruct (EvaluatorFacts.checkCircularReferences_returns c) as (seen & ->).
  destruct c; try discriminate; reflexivity.
Qed.

(** X4.  [validateCondition] rejects exactly the values that are no object
    or array with "Condition must be a valid JSON object"; on an object or
    array it is [validateJsonLogicOperators], and every error it throws then
    is one of [validateOperatorArguments]: on a tree the circularity check
    never fails. *)
Theorem validateCondition_errors (condition : jsval) :
  (is_object condition = false ->
   validateCondition condition =
   Throw (Error "Condition must be a valid JSON object")) /\
  (is_object condition = true ->
   validateCondition condition = validateJsonLogicOperators condition) /\
  (forall e, validateCondition condition = Throw e ->
     (is_object condition = false /\
      e = Error "Condition must be a valid JSON object") \/
     (is_object condition = true /\ invalid_arguments e)).
Proof.
  split; [apply validateCondition_of_other |].
  split; [apply validateCondition_of_object |].
  intros e He. destruct (is_object condition) eqn:Hc.
  - right. split; [reflexivity |].
    rewrite validateCondition_of_object in He by assumption.
    now apply EvaluatorFacts.validation_error_invalid_arguments
      with condition.
  - left. split; [reflexivity |].
    rewrite validateCondition_of_other in He by assumption. congruence.
Qed.

(** X5.  [testConditionSyntax] never throws; it reports [valid: true]
    exactly when [validateCondition] passes, and otherwise the message of
    the error.  A condition it reports invalid never matches: [evaluateRule]
    returns [false] for it on every input, whatever [jsonLogic.apply] would
    say. *)
Theorem invalid_syntax_never_matches (condition : jsval) :
  exists report,
    testConditionSyntax condition = Ok report /\
    (report = SyntaxValid <-> validateCondition condition = Ok tt) /\
    (forall error, report = SyntaxInvalid error ->
       (exists e, validateCondition condition = Throw e /\
                  error = message e) /\
       forall jsonLogic_apply data,
         evaluateRule jsonLogic_apply condition data = Ok false).
Proof.
  unfold testConditionSyntax, evaluateRule.
  destruct (validateCondition condition) as [[] | e]; cbn.
  - exists SyntaxValid. split; [reflexivity |]. split; [tauto |].
    discriminate.
  - exists (SyntaxInvalid (message e)). split; [reflexivity |].
    split; [split; discriminate |].
    intros error [= <-]. split; [now exists e | reflexivity].
Qed.

(** *** [preprocessData] *)

Lemma null_for_undefined_twice kv :
  null_for_undefined (null_for_undefined kv) = null_for_undefined kv.
Proof. destruct kv as [k []]; reflexivity. Qed.

Lemma preprocessData_unfold data :
  preprocessData data =
  JObject (if is_object data then map null_for_undefined (entries data)
           else []).
Proof.
  unfold preprocessData.
  destruct data as [| | [] | n | s | items | fields]; try reflexivity.
  - cbn. now destruct (n =? 0).
  - cbn. now destruct (String.eqb s "").
Qed.

(** X6.  [preprocessData] always returns an object.  For anything that is
    no object or array the object is empty; otherwise it has the entries of
    the input, in order, with [null] in place of every [undefined] value
    and every other value as it was.  Preprocessing twice is preprocessing
    once. *)
Theorem preprocessData_normalizes (data : jsval) :
  exists fields,
    preprocessData data = JObject fields /\
    (is_object data = false -> fields = []) /\
    (is_object data = true ->
     map fst fields = map fst (entries data) /\
     forall i k v, entries data !! i = Some (k, v) ->
       fields !! i = Some (k, match v with JUndefined => JNull | _ => v end)) /\
    (forall k v, In (k, v) fields -> v <> JUndefined) /\
    preprocessData (preprocessData data) = preprocessData data.
Proof.
  rewrite !preprocessData_unfold.
  eexists. split; [reflexivity |].
  destruct (is_object data) eqn:Hobj.
  - split; [discriminate |]. split; [| split].
    + intros _. split.
      * rewrite map_map. apply map_ext. now intros [k []].
      * intros i k v Hi. rewrite list_lookup_fmap, Hi. now destruct v.
    + intros k v Hin. apply in_map_iff in Hin as ([k' v'] & Heq & _).
      destruct v'; cbn in Heq; injection Heq as <- <-; discriminate.
    + cbn [is_object entries]. f_equal.
      rewrite map_map. apply map_ext. apply null_for_undefined_twice.
  - split; [reflexivity |]. split; [discriminate |]. split.
    + intros k v [].
    + reflexivity.
Qed.

End EvaluatorToolsFacts.

(** ** Reading objects *)

Module ObjectsFacts.
Import Js Objects.

Lemma obj_get_set_eq {A} k (v : A) o : obj_get k (obj_set k v o) = Some v.
Proof.
  induction o as [| [k' v'] rest IH]; cbn.
  - now rewrite String.eqb_refl.
  - destruct (String.eqb k' k) eqn:Hk; cbn; now rewrite Hk.
Qed.

Lemma obj_get_set_ne {A} k k' (v : A) o :
  k' <> k -> obj_get k (obj_set k' v o) = obj_get k o.
Proof.
  intros Hne.
  assert (Hk : String.eqb k' k = false) by now apply String.eqb_neq.
  induction o as [| [k0 v0] rest IH]; cbn.
  - now rewrite Hk.
  - destruct (String.eqb k0 k') eqn:H0; cbn.
    + apply String.eqb_eq in H0. subst k0. now rewrite Hk.
    + now rewrite IH.
Qed.

Lemma obj_get_snoc {A} k k' (v : A) o :
  obj_get k (o ++ [(k', v)]) =
  or_else (obj_get k o) (if String.eqb k' k then Some v else None).
Proof.
  induction o as [| [k0 v0] rest IH]; cbn; [reflexivity |].
  now destruct (String.eqb k0 k).
Qed.

(** In [{ ...base, ...extra }] a property has the value [extra] gives it
    last, and the value of [base] when [extra] does not name it. *)
Lemma spread_get {A} k (base extra : list (string * A)) :
  obj_get k (spread base extra) =
  or_else (obj_get k (rev extra)) (obj_get k base).
Proof.
  unfold spread. revert base.
  induction extra as [| [k' v] rest IH]; intros base; [reflexivity |].
  cbn [fold_left rev fst snd]. rewrite IH, obj_get_snoc.
  destruct (obj_get k (rev rest)); [reflexivity |]. cbn.
  destruct (String.eqb k' k) eqn:Hk.
  - apply String.eqb_eq in Hk. subst. apply obj_get_set_eq.
  - apply obj_get_set_ne. now apply String.eqb_neq.
Qed.

Lemma obj_get_not_in {A} k (o : list (string * A)) :
  ~ In k (map fst o) -> obj_get k o = None.
Proof.
  induction o as [| [k' v] rest IH]; cbn; [reflexivity |].
  intros Hnot. destruct (String.eqb k' k) eqn:Hk.
  - apply String.eqb_eq in Hk. tauto.
  - apply IH. tauto.
Qed.

(** When no name occurs twice, the last value is the first one. *)
Lemma obj_get_rev {A} k (o : list (string * A)) :
  List.NoDup (map fst o) -> obj_get k (rev o) = obj_get k o.
Proof.
  induction o as [| [k' v] rest IH]; intros Hnd; [reflexivity |].
  cbn in Hnd. inversion Hnd as [| ? ? Hfresh Hrest]; subst.
  cbn [rev]. rewrite obj_get_snoc, (IH Hrest). cbn.
  destruct (String.eqb k' k) eqn:Hk.
  - apply String.eqb_eq in Hk. subst.
    now rewrite obj_get_not_in.
  - now destruct (obj_get k rest).
Qed.

Lemma obj_set_names {A} k (v : A) o :
  List.NoDup (map fst o) -> List.NoDup (map fst (obj_set k v o)).
Proof.
  induction o as [| [k' v'] rest IH]; intros Hnd; cbn.
  - constructor; [intros [] | constructor].
  - cbn in Hnd. inversion Hnd as [| ? ? Hfresh Hrest]; subst.
    destruct (String.eqb k' k) eqn:Hk; cbn; [now constructor |].
    constructor; [| now apply IH].
    intros Hin. apply in_map_iff in Hin as ([k0 v0] & Heq & Hin).
    cbn in Heq. subst k0.
    assert (Hget : obj_get k' (obj_set k v rest) <> None).
    { clear - Hin. induction (obj_set k v rest) as [| [k1 v1] l IHl];
        [destruct Hin |].
      cbn. destruct (String.eqb k1 k') eqn:H1; [discriminate |].
      destruct Hin as [[= -> ->] | Hin]; [| now apply IHl].
      now rewrite String.eqb_refl in H1. }
    rewrite obj_get_set_ne in Hget
      by (intros ->; rewrite String.eqb_refl in Hk; discriminate).
    now rewrite obj_get_not_in in Hget.
Qed.

Lemma spread_names {A} (base extra : list (string * A)) :
  List.NoDup (map fst base) -> List.NoDup (map fst (spread base extra)).
Proof.
  unfold spread. revert base.
  induction extra as [| [k v] rest IH]; intros base Hnd; [exact Hnd |].
  cbn. apply IH. now apply obj_set_names.
Qed.

End ObjectsFacts.

(** ** The executor: requests, validation and effects *)

Module ExecutorToolsFacts.
Import Js Rules Config Executor ExecutorVocabulary Objects ExecutorTools.
Import ObjectsFacts ExecutorFacts.

(** X7.  A header of the request has the value the action gives it; a
    header the action does not name has its default (Content-Type,
    User-Agent and the two provenance headers) or is absent.  Names are
    compared as written, and no name is sent twice. *)
Theorem request_headers_merge
    (config : Config) (action : Action) (data : jsval) (context : Context)
    (name : string) :
  List.NoDup (map fst (default [] (headers action))) ->
  obj_get name (rq_headers (requestConfig_of config action data context)) =
    or_else (obj_get name (default [] (headers action)))
            (obj_get name (default_headers context)) /\
  List.NoDup
    (map fst (rq_headers (requestConfig_of config action data context))).
Proof.
  intros Hnd. cbn [requestConfig_of rq_headers]. split.
  - rewrite spread_get, obj_get_rev by assumption. reflexivity.
  - apply spread_names. cbn.
    repeat constructor; cbn; intros H;
      repeat (destruct H as [H | H]; [discriminate |]); exact H.
Qed.

Lemma request_headers_merge_witness :
  let action :=
    with_headers [("Content-Type", "text/plain"); ("content-type", "x")]
                 hook in
  (obj_get "Content-Type"
     (rq_headers (requestConfig_of defaults action JNull manual))
   = Some "text/plain" /\
   obj_get "content-type"
     (rq_headers (requestConfig_of defaults action JNull manual))
   = Some "x" /\
   obj_get "X-Workflow-Guard-Rule"
     (rq_headers (requestConfig_of defaults action JNull manual))
   = Some "unknown") /\
  List.NoDup
    (map fst (rq_headers (requestConfig_of defaults
                            (with_headers [("Content-Type", "text/plain");
                                           ("content-type", "x")] hook)
                            JNull manual))).
Proof.
  cbv zeta. split; [repeat split |].
  apply (request_headers_merge defaults
           (with_headers [("Content-Type", "text/plain");
                          ("content-type", "x")] hook)
           JNull manual "Content-Type").
  cbn. repeat constructor; cbn; intros H;
    repeat (destruct H as [H | H]; [discriminate |]); exact H.
Defined.






Section Transport.

Variable axios : nat -> RequestConfig -> result Response.
Variable config : Config.

(** X9.  Whatever the action, the configuration and the target,
    [executeWebhook] issues at most one request and never sleeps.  It
    returns only when that one request resolves, and then with
    [attempt: 1]; when the request is rejected it throws. *)
Theorem executeWebhook_attempts_once
    (action : Action) (data : jsval) (context : Context) (w : World) :
  exists r w',
    executeWebhook axios config action data context w = (r, w') /\
    sleeps w' = sleeps w /\
    (w' = w \/ w' = issued (requestConfig_of config action data context) w) /\
    (forall res, r = Ok res ->
       success res = true /\ attempt res = Some 1 /\
       w' = issued (requestConfig_of config action data context) w /\
       exists resp,
         axios (length (requests w))
               (requestConfig_of config action data context) = Ok resp /\
         response res = Some resp) /\
    (forall e,
       axios (length (requests w))
             (requestConfig_of config action data context) = Throw e ->
       exists e', r = Throw e').
Proof.
  unfold executeWebhook.
  destruct (nonempty (url action)); cbn [negb].
  - destruct (Z.to_nat (retries_of config action)) as [| remaining].
    + rewrite retry_loop_exhausted. eexists _, _.
      split; [reflexivity |]. split; [reflexivity |].
      split; [now left |]. split; [discriminate | eauto].
    + rewrite retry_loop_iteration.
      destruct (axios (length (requests w))
                  (requestConfig_of config action data context))
        as [resp | e0].
      * eexists _, _. split; [reflexivity |]. split; [reflexivity |].
        split; [now right |]. split; [| discriminate].
        intros res [= <-]. cbn. repeat split. now exists resp.
      * eexists _, _. split; [reflexivity |]. split; [reflexivity |].
        split; [now right |]. split; [discriminate | eauto].
  - eexists _, _. split; [reflexivity |]. split; [reflexivity |].
    split; [now left |]. split; [discriminate | eauto].
Qed.

Lemma run_action_effects action data context w :
  exists r w' new,
    run_action axios config action data context w = (Ok r, w') /\
    Executor.action r = action /\
    requests w' = requests w ++ new /\
    (length new <= length (webhooks [action]))%nat /\
    sleeps w' = sleeps w.
Proof.
  destruct (run_action_captures axios config action data context w)
    as (r0 & w0 & Hrun0 & Haction & _).
  unfold run_action, try_catchM, webhooks in *. cbn [List.filter].
  destruct (type_is action "webhook") eqn:Hty.
  - rewrite executeAction_webhook in * by assumption.
    pose proof (executeWebhook_effects axios config action data context w)
      as H.
    destruct (executeWebhook axios config action data context w) as [r w'].
    destruct H as [Hw _].
    assert (Hreq : exists new, requests w' = requests w ++ new /\
                               (length new <= 1)%nat /\
                               sleeps w' = sleeps w).
    { destruct Hw as [-> | ->].
      - exists []. rewrite app_nil_r. repeat split. cbn; lia.
      - eexists. split; [reflexivity |]. cbn. split; [lia | reflexivity]. }
    destruct Hreq as (new & Hreq & Hlen & Hsleeps).
    destruct r as [res | e]; injection Hrun0 as <- <-;
      eexists _, _, new; cbn; repeat split; assumption.
  - rewrite executeAction_unsupported in * by assumption. cbn in *.
    injection Hrun0 as <- <-.
    eexists _, _, []. rewrite app_nil_r. repeat split. cbn. lia.
Qed.

(** What [executeActions] returns and does: one result per action, in
    order, at most one request per webhook action, no sleep. *)
Lemma executeActions_effects actions data context w :
  exists results w' new,
    executeActions axios config actions data context w = (Ok results, w') /\
    map Executor.action results = actions /\
    requests w' = requests w ++ new /\
    (length new <= length (webhooks actions))%nat /\
    sleeps w' = sleeps w.
Proof.
  revert w. induction actions as [| action rest IH]; intros w.
  - exists [], w, []. rewrite app_nil_r. repeat split. cbn. lia.
  - rewrite executeActions_cons.
    destruct (run_action_effects action data context w)
      as (r & w1 & new1 & -> & Hr & Hreq1 & Hlen1 & Hsl1).
    destruct (IH w1) as (rs & w2 & new2 & -> & Hrs & Hreq2 & Hlen2 & Hsl2).
    exists (r :: rs), w2, (new1 ++ new2).
    split; [reflexivity |]. split; [cbn; now rewrite Hr, Hrs |].
    split; [| split].
    + now rewrite Hreq2, Hreq1, app_assoc.
    + rewrite length_app. unfold webhooks in *. cbn [List.filter] in *.
      destruct (type_is action "webhook"); cbn in *; lia.
    + congruence.
Qed.

(** X10.  [executeActions] returns one result per action and issues at most
    one request per webhook action, none for any other action; it never
    sleeps between or within actions. *)
Theorem executeActions_requests_bound
    (actions : list Action) (data : jsval) (context : Context) (w : World) :
  exists results w' new,
    executeActions axios config actions data context w = (Ok results, w') /\
    length results = length actions /\
    requests w' = requests w ++ new /\
    (length new <= length (webhooks actions))%nat /\
    sleeps w' = sleeps w.
Proof.
  destruct (executeActions_effects actions data context w)
    as (results & w' & new & Hrun & Hactions & Hrest).
  exists results, w', new. split; [assumption |].
  split; [| assumption]. now rewrite <- Hactions, length_map.
Qed.

(** X11.  An action with a type other than [webhook] passes
    [validateAction] without an error, whatever its other fields; yet
    [executeAction] throws "Unsupported action type" for it and
    [executeActions] records the failure, without a request. *)
Theorem unknown_type_passes_validation
    (isValidUrl : string -> bool) (action : Action) (data : jsval)
    (context : Context) (w : World) :
  nonempty (type action) = true ->
  type_is action "webhook" = false ->
  validateAction isValidUrl action = [] /\
  executeAction axios config action data context w =
    (Throw (Error ("Unsupported action type: " +:+
                   default "undefined" (type action))), w) /\
  executeActions axios config [action] data context w =
    (Ok [failure action
           (Error ("Unsupported action type: " +:+
                   default "undefined" (type action)))], w).
Proof.
  intros Hsome Hty. split; [| split].
  - unfold validateAction. now rewrite Hsome, Hty.
  - now apply executeAction_unsupported.
  - rewrite executeActions_cons. unfold run_action, try_catchM.
    now rewrite executeAction_unsupported.
Qed.

End Transport.

Lemma unknown_type_passes_validation_witness :
  validateAction accept_all_urls email = [] /\
  executeAction (always 200) defaults email JNull manual no_effects =
    (Throw (Error ("Unsupported action type: " +:+
                   default "undefined" (type email))), no_effects) /\
  executeActions (always 200) defaults [email] JNull manual no_effects =
    (Ok [failure email
           (Error ("Unsupported action type: " +:+
                   default "undefined" (type email)))], no_effects).
Proof.
  apply (unknown_type_passes_validation (always 200) defaults accept_all_urls
           email JNull manual no_effects); reflexivity.
Defined.

End ExecutorToolsFacts.

(** ** The scheduler: the job table and what fires *)

Module SchedulerToolsFacts.
Import Js Rules Config Scheduler SchedulerVocabulary SchedulerTools.
Import SchedulerFacts.

Section Cron.

Variable cron_validate : string -> bool.

(** *** The table refers to tasks of its rules *)

Lemma table_valid_initial : table_valid initial.
Proof. intros i job Hjob. cbn in Hjob. now rewrite lookup_empty in Hjob. Qed.

(** The table is as it was or smaller, and the tasks have only changed their
    [running] flag or got new ones. *)
Lemma table_valid_mono s s' :
  table_valid s ->
  (forall i job, jobs s' !! i = Some job -> jobs s !! i = Some job) ->
  (forall job t, tasks s !! job = Some t ->
     exists t', tasks s' !! job = Some t' /\ task_rule t' = task_rule t) ->
  table_valid s'.
Proof.
  intros Hinv Hjobs Htasks i job Hjob.
  destruct (Hinv i job (Hjobs i job Hjob)) as (t & rule & Ht & Hrule & Hid).
  destruct (Htasks job t Ht) as (t' & Ht' & Hsame).
  exists t', rule. repeat split; congruence.
Qed.

Lemma alter_keeps_rule b old (ts : list Task) job t :
  ts !! job = Some t ->
  exists t', alter (set_running b) old ts !! job = Some t' /\
             task_rule t' = task_rule t.
Proof.
  intros Ht. destruct (decide (old = job)) as [-> | Hne].
  - rewrite list_lookup_alter_eq, Ht. cbn. eauto.
  - rewrite list_lookup_alter_ne by assumption. eauto.
Qed.

Lemma app_keeps_rule (ts new : list Task) job t :
  ts !! job = Some t ->
  exists t', (ts ++ new) !! job = Some t' /\ task_rule t' = task_rule t.
Proof.
  intros Ht. exists t. split; [| reflexivity].
  rewrite lookup_app_l; [assumption |]. now apply lookup_lt_Some in Ht.
Qed.

Lemma stop_existing_keeps_rule rule s job t :
  tasks s !! job = Some t ->
  exists t', tasks (stop_existing rule s) !! job = Some t' /\
             task_rule t' = task_rule t.
Proof.
  intros Ht. unfold stop_existing.
  destruct (jobs s !! id rule); [| eauto]. cbn. now apply alter_keeps_rule.
Qed.

Lemma stop_existing_table_valid rule s :
  table_valid s -> table_valid (stop_existing rule s).
Proof.
  intros Hinv. apply (table_valid_mono s); [assumption | |].
  - intros i job. now rewrite stop_existing_jobs.
  - intros job t. apply stop_existing_keeps_rule.
Qed.

Lemma scheduleRule_table_valid rule s :
  table_valid s -> table_valid (snd (scheduleRule cron_validate rule s)).
Proof.
  intros Hinv.
  destruct (nonempty (schedule rule)) eqn:Hsched;
    [| now rewrite scheduleRule_unscheduled].
  destruct (cron_validate (default "" (schedule rule))) eqn:Hvalid.
  - rewrite scheduleRule_valid by now split. cbn.
    intros i job Hjob. cbn in *.
    destruct (decide (id rule = i)) as [<- | Hne].
    + rewrite lookup_insert_eq in Hjob. injection Hjob as <-.
      exists (task_of rule), rule. split; [| now split].
      rewrite lookup_app_r by (rewrite stop_existing_length; lia).
      now rewrite stop_existing_length, Nat.sub_diag.
    + rewrite lookup_insert_ne in Hjob by assumption.
      destruct (Hinv i job Hjob) as (t & r & Ht & Hr & Hid).
      destruct (stop_existing_keeps_rule rule s job t Ht)
        as (t' & Ht' & Hsame).
      destruct (app_keeps_rule _
                  [ {| expression := default "" (schedule rule);
                       task_rule := Some rule; running := true |} ]
                  job t' Ht') as (t'' & Ht'' & Hsame').
      exists t'', r. repeat split; congruence.
  - rewrite scheduleRule_invalid by now split.
    now apply stop_existing_table_valid.
Qed.

Lemma scheduleRules_table_valid rules s :
  table_valid s ->
  table_valid (snd (scheduleRules cron_validate rules s)).
Proof.
  revert s. induction rules as [| rule rest IH]; intros s Hinv;
    [exact Hinv |].
  cbn [scheduleRules]. unfold bind.
  pose proof (scheduleRule_table_valid rule s Hinv) as Hstep.
  destruct (scheduleRule_returns cron_validate rule s) as (s1 & Hs1).
  rewrite Hs1 in *. now apply IH.
Qed.

Lemma unscheduleRule_table_valid i s :
  table_valid s -> table_valid (snd (unscheduleRule i s)).
Proof.
  intros Hinv. unfold unscheduleRule.
  destruct (jobs s !! i) as [old |] eqn:Hold; [| exact Hinv].
  cbn. apply (table_valid_mono s); [assumption | |]; cbn.
  - intros j job Hjob. apply lookup_delete_Some in Hjob. tauto.
  - intros job t. apply alter_keeps_rule.
Qed.

Lemma stop_table_valid s : table_valid s -> table_valid (snd (stop s)).
Proof.
  intros Hinv. unfold stop. destruct (isRunning s); cbn; [| exact Hinv].
  intros i job Hjob. cbn in Hjob. now rewrite lookup_empty in Hjob.
Qed.

Lemma updateScheduledRule_table_valid rule s :
  table_valid s ->
  table_valid (snd (updateScheduledRule cron_validate rule s)).
Proof.
  intros Hinv. unfold updateScheduledRule.
  destruct (nonempty (schedule rule)).
  - now apply scheduleRule_table_valid.
  - now apply unscheduleRule_table_valid.
Qed.

Lemma scheduleRules_returns rules s :
  exists s', scheduleRules cron_validate rules s = (Ok tt, s').
Proof.
  revert s. induction rules as [| rule rest IH]; intros s;
    [now exists s |].
  cbn [scheduleRules]. unfold bind.
  destruct (scheduleRule_returns cron_validate rule s) as (s1 & ->).
  apply IH.
Qed.

(** What [start] does when the scheduler is not running and scheduling is
    enabled. *)
Lemma start_loads config rules s :
  isRunning s = false -> cronEnabled config = true ->
  start cron_validate config (Ok rules) s =
  (Ok tt,
   {| jobs := jobs (snd (scheduleRules cron_validate rules s));
      isRunning := true;
      tasks := tasks (snd (scheduleRules cron_validate rules s)) |}).
Proof.
  intros Hrun Hon. unfold start. rewrite Hrun, Hon. cbn [negb].
  unfold try_catchM, bind, loadScheduledRules, try_catchM, bind.
  now destruct (scheduleRules_returns rules s) as (s' & ->).
Qed.

Lemma start_fails config e s :
  isRunning s = false -> cronEnabled config = true ->
  start cron_validate config (Throw e) s = (Throw e, s).
Proof.
  intros Hrun Hon. unfold start. now rewrite Hrun, Hon.
Qed.

Lemma start_idle config getScheduledRules s :
  isRunning s = true \/ cronEnabled config = false ->
  start cron_validate config getScheduledRules s = (Ok tt, s).
Proof.
  intros H. unfold start. destruct (isRunning s); [reflexivity |].
  destruct H as [H | ->]; [discriminate | reflexivity].
Qed.

Lemma start_table_valid config getScheduledRules s :
  table_valid s ->
  table_valid (snd (start cron_validate config getScheduledRules s)).
Proof.
  intros Hinv.
  destruct (isRunning s) eqn:Hrun;
    [rewrite start_idle by (now left); exact Hinv |].
  destruct (cronEnabled config) eqn:Hon;
    [| rewrite start_idle by (now right); exact Hinv].
  destruct getScheduledRules as [rules | e].
  - rewrite start_loads by assumption. cbn.
    exact (scheduleRules_table_valid rules s Hinv).
  - now rewrite start_fails.
Qed.

Lemma stop_returns s : exists s', stop s = (Ok tt, s').
Proof. unfold stop. destruct (isRunning s); cbn; eauto. Qed.

Lemma reload_table_valid config getScheduledRules s :
  table_valid s ->
  table_valid (snd (reload cron_validate config getScheduledRules s)).
Proof.
  intros Hinv. unfold reload, bind.
  pose proof (stop_table_valid s Hinv) as Hstop.
  destruct (stop_returns s) as (s1 & Hs1). rewrite Hs1 in *.
  now apply start_table_valid.
Qed.

Lemma testCronExpression_table_valid expression s :
  table_valid s ->
  table_valid
    (snd (testCronExpression cron_validate expression s)).
Proof.
  intros Hinv.
  destruct (cron_validate expression) eqn:Hvalid.
  - rewrite testCronExpression_valid by assumption. cbn.
    apply (table_valid_mono s); [assumption | now cbn |]. cbn.
    intros job t. apply app_keeps_rule.
  - now rewrite testCronExpression_invalid.
Qed.

Lemma reachable_table_valid config getScheduledRules s :
  reachable cron_validate config getScheduledRules s ->
  table_valid s.
Proof.
  induction 1.
  - apply table_valid_initial.
  - now apply scheduleRule_table_valid.
  - now apply unscheduleRule_table_valid.
  - now apply updateScheduledRule_table_valid.
  - now apply start_table_valid.
  - now apply stop_table_valid.
  - now apply reload_table_valid.
  - now rewrite getJobsStatus_state.
  - now apply testCronExpression_table_valid.
Qed.

(** Two entries of the table never share a task. *)
Lemma table_valid_injective s i j job :
  table_valid s -> jobs s !! i = Some job -> jobs s !! j = Some job -> i = j.
Proof.
  intros Hinv Hi Hj.
  destruct (Hinv i job Hi) as (t & r & Ht & Hr & <-).
  destruct (Hinv j job Hj) as (t' & r' & Ht' & Hr' & <-).
  congruence.
Qed.


(** *** What the methods do to the flag *)

Lemma stop_existing_isRunning rule s :
  isRunning (stop_existing rule s) = isRunning s.
Proof. unfold stop_existing. now destruct (jobs s !! id rule). Qed.

Lemma scheduleRule_isRunning rule s :
  isRunning (snd (scheduleRule cron_validate rule s)) = isRunning s.
Proof.
  destruct (nonempty (schedule rule)) eqn:Hsched;
    [| now rewrite scheduleRule_unscheduled].
  destruct (cron_validate (default "" (schedule rule))) eqn:Hvalid.
  - now rewrite scheduleRule_valid by now split.
  - rewrite scheduleRule_invalid by now split.
    apply stop_existing_isRunning.
Qed.

Lemma unscheduleRule_isRunning i s :
  isRunning (snd (unscheduleRule i s)) = isRunning s.
Proof. unfold unscheduleRule. now destruct (jobs s !! i). Qed.

Lemma testCronExpression_isRunning expression s :
  isRunning
    (snd (testCronExpression cron_validate expression s))
  = isRunning s.
Proof.
  destruct (cron_validate expression) eqn:Hvalid.
  - now rewrite testCronExpression_valid.
  - now rewrite testCronExpression_invalid.
Qed.

Lemma stop_idle s : isRunning s = false -> stop s = (Ok tt, s).
Proof. intros H. unfold stop. now rewrite H. Qed.

Lemma reload_idle config getScheduledRules s :
  isRunning s = false -> cronEnabled config = false ->
  reload cron_validate config getScheduledRules s = (Ok tt, s).
Proof.
  intros Hrun Hoff. unfold reload, bind. rewrite stop_idle by assumption.
  apply start_idle. now right.
Qed.

Lemma disabled_never_runs config getScheduledRules s :
  cronEnabled config = false ->
  reachable cron_validate config getScheduledRules s ->
  isRunning s = false.
Proof.
  intros Hoff. induction 1.
  - reflexivity.
  - now rewrite scheduleRule_isRunning.
  - now rewrite unscheduleRule_isRunning.
  - unfold updateScheduledRule. destruct (nonempty (schedule rule)).
    + now rewrite scheduleRule_isRunning.
    + now rewrite unscheduleRule_isRunning.
  - rewrite start_idle by (now right). assumption.
  - now rewrite stop_idle.
  - now rewrite reload_idle.
  - now rewrite getJobsStatus_state.
  - now rewrite testCronExpression_isRunning.
Qed.

(** When it does stop, [stop] leaves no task started. *)
Lemma stop_running s :
  isRunning s = true ->
  stop s =
  (Ok tt,
   {| jobs := ∅; isRunning := false;
      tasks := foldr (fun entry ts =>
                        alter (set_running false) (snd entry) ts)
                     (tasks s) (map_to_list (jobs s)) |}).
Proof. intros H. unfold stop. now rewrite H. Qed.

Lemma owns_running_empty s job :
  owns_running s -> jobs s = ∅ -> fires s job = false.
Proof.
  intros Hinv Hempty. unfold fires.
  destruct (tasks s !! job) as [t |] eqn:Ht; [| reflexivity].
  destruct (running t) eqn:Hrun; [| reflexivity].
  destruct (Hinv job t Ht Hrun) as (r & _ & Htable).
  rewrite Hempty, lookup_empty in Htable. discriminate.
Qed.

Lemma rule_fires_table s i :
  owns_running s -> rule_fires s i ->
  exists job, jobs s !! i = Some job /\ fires s job = true.
Proof.
  intros Hinv (job & t & rule & Ht & Hrun & Hrule & <-).
  destruct (Hinv job t Ht Hrun) as (r & Hr & Htable).
  exists job. split; [congruence |]. unfold fires. now rewrite Ht.
Qed.

Section Store.

Variable config : Config.
Variable getScheduledRules : result (list Rule).

(** X12.  [getJobsStatus] returns the empty list when the table is empty.
    When the table holds any job it reports nothing: it throws the
    TypeError of [job.nextDate()], whatever the state of the jobs; in either
    case it leaves the scheduler as it was. *)
Theorem getJobsStatus_throws_on_any_job (s : State) :
  (jobs s = ∅ -> getJobsStatus s = (Ok [], s)) /\
  (forall i job, jobs s !! i = Some job ->
     getJobsStatus s =
       (Throw (TypeError "job.nextDate is not a function"), s)) /\
  (jobs s <> ∅ ->
   getJobsStatus s =
     (Throw (TypeError "job.nextDate is not a function"), s)) /\
  snd (getJobsStatus s) = s.
Proof.
  split; [apply getJobsStatus_empty |].
  split; [intros i job; apply getJobsStatus_throws |].
  split; [| apply getJobsStatus_state].
  intros Hsome. destruct (map_choose (jobs s) Hsome) as (i & job & Hjob).
  now apply (getJobsStatus_throws s i job).
Qed.

(** X13.  In every state the scheduler can reach, a started task is the
    task the table holds for its rule: a task created for a preview never
    runs, and no two started tasks belong to rules of the same id. *)
Theorem started_task_is_the_table_job (s : State) (job : nat) (t : Task) :
  reachable cron_validate config getScheduledRules s ->
  tasks s !! job = Some t ->
  running t = true ->
  exists rule,
    task_rule t = Some rule /\
    jobs s !! id rule = Some job /\
    (forall job' t' rule',
       tasks s !! job' = Some t' -> running t' = true ->
       task_rule t' = Some rule' -> id rule' = id rule -> job' = job).
Proof.
  intros Hreach Ht Hrun. apply reachable_owns_running in Hreach.
  destruct (Hreach job t Ht Hrun) as (rule & Hrule & Htable).
  exists rule. split; [assumption |]. split; [assumption |].
  intros job' t' rule' Ht' Hrun' Hrule' Hid.
  destruct (Hreach job' t' Ht' Hrun') as (r & Hr & Htable').
  congruence.
Qed.

(** X14.  [unscheduleRule] never throws.  After it, in a state the
    scheduler can reach, the table has no entry for the rule id and no task
    of a rule of that id is started; the entries of the other ids and their
    tasks are as they were; and a second call changes nothing. *)
Theorem unscheduleRule_silences_rule (i : string) (s : State) :
  reachable cron_validate config getScheduledRules s ->
  exists s',
    unscheduleRule i s = (Ok tt, s') /\
    jobs s' = delete i (jobs s) /\
    isRunning s' = isRunning s /\
    ~ rule_fires s' i /\
    (forall j job, j <> i -> jobs s !! j = Some job ->
       jobs s' !! j = Some job /\ tasks s' !! job = tasks s !! job) /\
    unscheduleRule i s' = (Ok tt, s').
Proof.
  intros Hreach.
  pose proof (reachable_table_valid _ _ _ Hreach) as Hvalid.
  pose proof (unscheduleRule_owns_running i s
                (reachable_owns_running _ _ _ _ Hreach)) as Howns.
  assert (Hsilent :
            jobs (snd (unscheduleRule i s)) !! i = None ->
            ~ rule_fires (snd (unscheduleRule i s)) i).
  { intros Hnone Hfires.
    destruct (rule_fires_table _ _ Howns Hfires) as (job & Hjob & _).
    congruence. }
  unfold unscheduleRule in *.
  destruct (jobs s !! i) as [old |] eqn:Hold; cbn in *.
  - eexists. split; [reflexivity |]. cbn.
    split; [reflexivity |]. split; [reflexivity |].
    split; [apply Hsilent, lookup_delete_eq |]. split.
    + intros j job Hne Hjob.
      split; [now rewrite lookup_delete_ne by congruence |].
      apply list_lookup_alter_ne. intros ->. apply Hne.
      now apply (table_valid_injective s j i job).
    + now rewrite lookup_delete_eq.
  - exists s. split; [reflexivity |].
    split; [now rewrite delete_id |]. split; [reflexivity |].
    split; [now apply Hsilent |]. split; [now intros |].
    now rewrite Hold.
Qed.

(** X15.  [stop] on a running scheduler, in a state it can reach: the table
    is emptied, the flag is cleared, no task is started any more and the
    status report is empty. *)
Theorem stop_silences_every_job (s : State) :
  reachable cron_validate config getScheduledRules s ->
  isRunning s = true ->
  exists s',
    stop s = (Ok tt, s') /\
    jobs s' = ∅ /\
    isRunning s' = false /\
    (forall job, fires s' job = false) /\
    getJobsStatus s' = (Ok [], s').
Proof.
  intros Hreach Hrun.
  pose proof (stop_owns_running s
                (reachable_owns_running _ _ _ _ Hreach)) as Howns.
  rewrite stop_running in * by assumption. cbn in Howns.
  eexists. split; [reflexivity |]. cbn.
  split; [reflexivity |]. split; [reflexivity |]. split.
  - intros job. now apply owns_running_empty.
  - now apply getJobsStatus_empty.
Qed.

(** X16.  With scheduling disabled in the configuration the scheduler never
    runs: [start], [stop] and [reload] do nothing.  A rule with a valid
    schedule handed to [updateScheduledRule] is scheduled and started all
    the same, and [stop] does not stop it. *)
Theorem disabled_scheduler_still_schedules (s : State) :
  cronEnabled config = false ->
  reachable cron_validate config getScheduledRules s ->
  isRunning s = false /\
  start cron_validate config getScheduledRules s = (Ok tt, s) /\
  stop s = (Ok tt, s) /\
  reload cron_validate config getScheduledRules s = (Ok tt, s) /\
  (forall rule, valid_schedule cron_validate rule ->
     exists s1 job,
       updateScheduledRule cron_validate rule s = (Ok tt, s1) /\
       jobs s1 !! id rule = Some job /\
       tasks s1 !! job = Some (task_of rule) /\
       stop s1 = (Ok tt, s1) /\
       fires (snd (stop s1)) job = true).
Proof.
  intros Hoff Hreach.
  pose proof (disabled_never_runs _ _ _ Hoff Hreach) as Hrun.
  split; [assumption |].
  split; [apply start_idle; now right |].
  split; [now apply stop_idle |].
  split; [now apply reload_idle |].
  intros rule Hvalid. unfold updateScheduledRule.
  destruct Hvalid as [Hsched Hok]. rewrite Hsched.
  rewrite scheduleRule_valid by now split.
  eexists _, (length (tasks s)). split; [reflexivity |]. cbn.
  assert (Htask :
            (tasks (stop_existing rule s) ++ [task_of rule])
              !! length (tasks s) = Some (task_of rule)).
  { rewrite lookup_app_r by (rewrite stop_existing_length; lia).
    now rewrite stop_existing_length, Nat.sub_diag. }
  split; [apply lookup_insert_eq |].
  split; [exact Htask |].
  rewrite stop_idle by assumption.
  split; [reflexivity |]. unfold fires. cbn.
  unfold task_of in Htask. now rewrite Htask.
Qed.

(** X17.  [testCronExpression] never throws and leaves the schedule alone:
    the table, the flag, what fires and the status report are as before;
    the only trace of a valid expression is one more task, never
    started. *)
Theorem preview_leaves_schedule_alone (expression : string) (s : State) :
  exists r s',
    testCronExpression cron_validate expression s = (Ok r, s') /\
    jobs s' = jobs s /\
    isRunning s' = isRunning s /\
    (forall job, fires s' job = fires s job) /\
    fst (getJobsStatus s') = fst (getJobsStatus s) /\
    length (tasks s') =
      (length (tasks s) + if cron_validate expression then 1 else 0)%nat.
Proof.
  destruct (cron_validate expression) eqn:Hvalid.
  - rewrite testCronExpression_valid by assumption.
    eexists _, _. split; [reflexivity |]. cbn.
    split; [reflexivity |]. split; [reflexivity |]. split; [| split].
    + intros job. unfold fires. cbn.
      destruct (decide (job < length (tasks s))%nat) as [Hlt | Hge].
      * now rewrite lookup_app_l.
      * rewrite lookup_app_r by lia.
        rewrite (lookup_ge_None_2 (tasks s)) by lia.
        now destruct (job - length (tasks s))%nat as [| [| n]].
    + unfold getJobsStatus. cbn [with_preview_task jobs].
      destruct (map_to_list (jobs s)) as [| entry rest]; [reflexivity |].
      now rewrite !status_entries_throws.
    + rewrite length_app. reflexivity.
  - rewrite testCronExpression_invalid by assumption.
    eexists _, _. split; [reflexivity |]. repeat split. lia.
Qed.

End Store.


(** *** The loop of [loadScheduledRules] *)

Lemma stop_existing_fires rule s i :
  rule_fires (stop_existing rule s) i -> rule_fires s i.
Proof.
  intros (job & t & r & Ht & Hrun & Hr & Hid).
  rewrite stop_existing_lookup in Ht. case_bool_decide as Hold.
  - destruct (tasks s !! job) as [t0 |]; [| discriminate].
    injection Ht as <-. discriminate.
  - now exists job, t, r.
Qed.

Lemma stop_existing_other rule s i job :
  table_valid s -> i <> id rule -> jobs s !! i = Some job ->
  tasks (stop_existing rule s) !! job = tasks s !! job.
Proof.
  intros Hinv Hne Hjob. rewrite stop_existing_lookup.
  case_bool_decide as Hold; [| reflexivity].
  exfalso. apply Hne. now apply (table_valid_injective s i (id rule) job).
Qed.

(** Where a table entry and a started task come from. *)
Lemma scheduleRule_origin rule s :
  (forall i job,
     jobs (snd (scheduleRule cron_validate rule s)) !! i = Some job ->
     jobs s !! i = Some job \/
     (id rule = i /\ valid_schedule cron_validate rule)) /\
  (forall i,
     rule_fires (snd (scheduleRule cron_validate rule s)) i ->
     rule_fires s i \/ (id rule = i /\ valid_schedule cron_validate rule)).
Proof.
  destruct (nonempty (schedule rule)) eqn:Hsched;
    [| rewrite scheduleRule_unscheduled by assumption; cbn; auto].
  destruct (cron_validate (default "" (schedule rule))) eqn:Hvalid.
  - rewrite scheduleRule_valid by now split. cbn. split.
    + intros i job Hjob.
      destruct (decide (id rule = i)) as [Heq | Hne];
        [right; now repeat split |].
      rewrite lookup_insert_ne in Hjob by assumption. now left.
    + intros i (job & t & r & Ht & Hrun & Hr & Hid). cbn in Ht.
      destruct (decide (job < length (tasks s))%nat) as [Hlt | Hge].
      * rewrite lookup_app_l in Ht by now rewrite stop_existing_length.
        left. apply (stop_existing_fires rule). now exists job, t, r.
      * rewrite lookup_app_r in Ht by (rewrite stop_existing_length; lia).
        destruct (job - length (tasks (stop_existing rule s)))%nat
          as [| n]; [| cbn in Ht; discriminate].
        injection Ht as <-. cbn in Hr. injection Hr as <-.
        right. now repeat split.
  - rewrite scheduleRule_invalid by now split. cbn. split.
    + intros i job. rewrite stop_existing_jobs. now left.
    + intros i Hfires. left. now apply (stop_existing_fires rule).
Qed.

Lemma scheduleRules_origin rules s :
  (forall i job,
     jobs (snd (scheduleRules cron_validate rules s)) !! i = Some job ->
     jobs s !! i = Some job \/
     exists rule, rule ∈ rules /\ id rule = i /\
                  valid_schedule cron_validate rule) /\
  (forall i,
     rule_fires (snd (scheduleRules cron_validate rules s)) i ->
     rule_fires s i \/
     exists rule, rule ∈ rules /\ id rule = i /\
                  valid_schedule cron_validate rule).
Proof.
  revert s. induction rules as [| rule rest IH]; intros s;
    [cbn; auto |].
  cbn [scheduleRules]. unfold bind.
  destruct (scheduleRule_origin rule s) as [Hjobs1 Hfires1].
  destruct (scheduleRule_returns cron_validate rule s) as (s1 & Hs1).
  rewrite Hs1 in *. cbn [snd] in *.
  destruct (IH s1) as [Hjobs Hfires]. split.
  - intros i job Hjob.
    destruct (Hjobs i job Hjob) as [H1 | (r & Hr & Hid & Hv)].
    + destruct (Hjobs1 i job H1) as [H0 | [Hid Hv]]; [now left |].
      right. exists rule. split; [apply list_elem_of_here | now split].
    + right. exists r. split; [now apply list_elem_of_further | now split].
  - intros i Hi.
    destruct (Hfires i Hi) as [H1 | (r & Hr & Hid & Hv)].
    + destruct (Hfires1 i H1) as [H0 | [Hid Hv]]; [now left |].
      right. exists rule. split; [apply list_elem_of_here | now split].
    + right. exists r. split; [now apply list_elem_of_further | now split].
Qed.

(** [scheduleRule] leaves the entries of the other rule ids and their tasks
    alone. *)
Lemma scheduleRule_frame rule s i :
  table_valid s -> i <> id rule ->
  jobs (snd (scheduleRule cron_validate rule s)) !! i = jobs s !! i /\
  (forall job, jobs s !! i = Some job ->
     tasks (snd (scheduleRule cron_validate rule s)) !! job
     = tasks s !! job).
Proof.
  intros Hinv Hne.
  destruct (nonempty (schedule rule)) eqn:Hsched;
    [| rewrite scheduleRule_unscheduled by assumption; cbn; auto].
  destruct (cron_validate (default "" (schedule rule))) eqn:Hvalid.
  - rewrite scheduleRule_valid by now split. cbn. split.
    + now rewrite lookup_insert_ne by congruence.
    + intros job Hjob.
      destruct (Hinv i job Hjob) as (t & _ & Ht & _).
      rewrite lookup_app_l
        by (rewrite stop_existing_length; now apply lookup_lt_Some in Ht).
      now apply (stop_existing_other rule s i).
  - rewrite scheduleRule_invalid by now split. cbn.
    split; [now rewrite stop_existing_jobs |].
    intros job Hjob. now apply (stop_existing_other rule s i).
Qed.

Lemma scheduleRules_frame rules s i :
  table_valid s -> i ∉ id <$> rules ->
  jobs (snd (scheduleRules cron_validate rules s)) !! i = jobs s !! i /\
  (forall job, jobs s !! i = Some job ->
     tasks (snd (scheduleRules cron_validate rules s)) !! job
     = tasks s !! job).
Proof.
  revert s. induction rules as [| rule rest IH]; intros s Hinv Hi;
    [cbn; auto |].
  cbn in Hi. apply not_elem_of_cons in Hi as [Hne Hi].
  cbn [scheduleRules]. unfold bind.
  destruct (scheduleRule_frame rule s i Hinv Hne) as [Hjobs1 Htasks1].
  pose proof (scheduleRule_table_valid rule s Hinv) as Hinv1.
  destruct (scheduleRule_returns cron_validate rule s) as (s1 & Hs1).
  rewrite Hs1 in *. cbn [snd] in *.
  destruct (IH s1 Hinv1 Hi) as [Hjobs Htasks]. split; [congruence |].
  intros job Hjob. rewrite Htasks by congruence. now apply Htasks1.
Qed.

Lemma scheduleRule_scheduled rule s :
  valid_schedule cron_validate rule ->
  jobs (snd (scheduleRule cron_validate rule s)) !! id rule
    = Some (length (tasks s)) /\
  tasks (snd (scheduleRule cron_validate rule s)) !! length (tasks s)
    = Some (task_of rule).
Proof.
  intros Hvalid. rewrite scheduleRule_valid by assumption. cbn.
  split; [apply lookup_insert_eq |].
  rewrite lookup_app_r by (rewrite stop_existing_length; lia).
  now rewrite stop_existing_length, Nat.sub_diag.
Qed.

Lemma scheduleRule_silent rule s :
  owns_running s -> invalid_schedule cron_validate rule ->
  ~ rule_fires (snd (scheduleRule cron_validate rule s)) (id rule).
Proof.
  intros Hinv Hinvalid Hfires.
  rewrite scheduleRule_invalid in Hfires by assumption. cbn in Hfires.
  destruct (rule_fires_table _ _ (stop_existing_owns_running rule s Hinv)
              Hfires) as (job & Hjob & Hrun).
  rewrite stop_existing_jobs in Hjob. unfold fires in Hrun.
  rewrite stop_existing_lookup, bool_decide_eq_true_2 in Hrun
    by assumption.
  destruct (tasks s !! job); cbn in Hrun; discriminate.
Qed.

Lemma scheduleRules_spec rules s :
  table_valid s -> owns_running s -> NoDup (id <$> rules) ->
  (forall rule, rule ∈ rules -> valid_schedule cron_validate rule ->
     exists job,
       jobs (snd (scheduleRules cron_validate rules s)) !! id rule
         = Some job /\
       tasks (snd (scheduleRules cron_validate rules s)) !! job
         = Some (task_of rule)) /\
  (forall rule, rule ∈ rules -> invalid_schedule cron_validate rule ->
     ~ rule_fires (snd (scheduleRules cron_validate rules s)) (id rule)).
Proof.
  revert s. induction rules as [| rule rest IH]; intros s Hinv Howns Hnd.
  - split; intros rule Hin; now apply elem_of_nil in Hin.
  - cbn in Hnd. apply NoDup_cons in Hnd as [Hfresh Hnd].
    cbn [scheduleRules]. unfold bind.
    pose proof (scheduleRule_table_valid rule s Hinv) as Hinv1.
    pose proof (scheduleRule_owns_running cron_validate rule s Howns)
      as Howns1.
    pose proof (scheduleRule_scheduled rule s) as Hsched.
    pose proof (scheduleRule_silent rule s Howns) as Hsilent.
    destruct (scheduleRule_returns cron_validate rule s) as (s1 & Hs1).
    rewrite Hs1 in *. cbn [snd] in *.
    destruct (IH s1 Hinv1 Howns1 Hnd) as [Hvalid Hinvalid].
    destruct (scheduleRules_frame rest s1 (id rule) Hinv1 Hfresh)
      as [Hjobs Htasks].
    destruct (scheduleRules_origin rest s1) as [_ Hfires].
    split.
    + intros r Hr Hv. apply elem_of_cons in Hr as [-> | Hr];
        [| now apply Hvalid].
      destruct (Hsched Hv) as [Hjob Htask].
      exists (length (tasks s)). split; [congruence |].
      now rewrite (Htasks _ Hjob).
    + intros r Hr Hv. apply elem_of_cons in Hr as [-> | Hr];
        [| now apply Hinvalid].
      intros Hf. destruct (Hfires _ Hf) as [H1 | (r' & Hr' & Hid & _)].
      * now apply (Hsilent Hv).
      * apply Hfresh. rewrite <- Hid. apply list_elem_of_fmap. now exists r'.
Qed.

Lemma task_of_fires s rule job :
  tasks s !! job = Some (task_of rule) -> rule_fires s (id rule).
Proof. intros Ht. now exists job, (task_of rule), rule. Qed.

Section Load.

Variable config : Config.
Variable getScheduledRules : result (list Rule).

(** X18.  [start] on a scheduler that is not running, with scheduling
    enabled and a store that returns rules of distinct ids: the call
    returns, the flag is set, every rule with a valid expression has a
    table entry whose task is started with that expression, no task of a
    rule with an invalid expression is started, and the entries of rule ids
    the store did not return are as they were. *)
Theorem start_schedules_stored_rules
    (loaded : Config) (rules : list Rule) (s : State) :
  reachable cron_validate config getScheduledRules s ->
  isRunning s = false ->
  cronEnabled loaded = true ->
  NoDup (id <$> rules) ->
  exists s',
    start cron_validate loaded (Ok rules) s = (Ok tt, s') /\
    isRunning s' = true /\
    (forall rule, rule ∈ rules -> valid_schedule cron_validate rule ->
       exists job,
         jobs s' !! id rule = Some job /\
         tasks s' !! job = Some (task_of rule)) /\
    (forall rule, rule ∈ rules -> invalid_schedule cron_validate rule ->
       ~ rule_fires s' (id rule)) /\
    (forall i, i ∉ id <$> rules ->
       jobs s' !! i = jobs s !! i /\
       forall job, jobs s !! i = Some job ->
                   tasks s' !! job = tasks s !! job).
Proof.
  intros Hreach Hrun Hon Hnd.
  pose proof (reachable_table_valid _ _ _ Hreach) as Hvalid.
  pose proof (reachable_owns_running _ _ _ _ Hreach) as Howns.
  rewrite start_loads by assumption.
  eexists. split; [reflexivity |]. cbn. split; [reflexivity |].
  destruct (scheduleRules_spec rules s Hvalid Howns Hnd) as [Hv Hi].
  split; [exact Hv |]. split.
  - intros rule Hin Hinvalid (job & t & r & Ht & Hrest). cbn in Ht.
    apply (Hi rule Hin Hinvalid). now exists job, t, r.
  - intros i Hfresh. now apply scheduleRules_frame.
Qed.

(** X19.  When the store fails, [start] throws the store's error; nothing
    is scheduled and the scheduler stays as it was, not running, so a later
    [start] loads the rules. *)
Theorem start_rethrows_store_failure
    (loaded : Config) (e : exn) (rules : list Rule) (s : State) :
  isRunning s = false ->
  cronEnabled loaded = true ->
  loadScheduledRules cron_validate (Throw e) s = (Throw e, s) /\
  start cron_validate loaded (Throw e) s = (Throw e, s) /\
  isRunning
    (snd (start cron_validate loaded (Ok rules)
            (snd (start cron_validate loaded (Throw e) s)))) = true.
Proof.
  intros Hrun Hon. split; [reflexivity |].
  rewrite start_fails by assumption. split; [reflexivity |].
  cbn [snd]. now rewrite start_loads.
Qed.

(** X20.  [reload] on a running scheduler, in a state it can reach, with a
    store that returns rules of distinct ids: afterwards the table holds
    exactly the ids of the returned rules with a valid expression, and the
    started tasks are exactly theirs, each with the rule's expression. *)
Theorem reload_runs_exactly_stored_rules
    (loaded : Config) (rules : list Rule) (s : State) :
  reachable cron_validate config getScheduledRules s ->
  isRunning s = true ->
  cronEnabled loaded = true ->
  NoDup (id <$> rules) ->
  exists s',
    reload cron_validate loaded (Ok rules) s = (Ok tt, s') /\
    isRunning s' = true /\
    (forall i, is_Some (jobs s' !! i) <->
       exists rule, rule ∈ rules /\ id rule = i /\
                    valid_schedule cron_validate rule) /\
    (forall i, rule_fires s' i <->
       exists rule, rule ∈ rules /\ id rule = i /\
                    valid_schedule cron_validate rule) /\
    (forall rule, rule ∈ rules -> valid_schedule cron_validate rule ->
       exists job,
         jobs s' !! id rule = Some job /\
         tasks s' !! job = Some (task_of rule)).
Proof.
  intros Hreach Hrun Hon Hnd.
  pose proof (stop_table_valid s (reachable_table_valid _ _ _ Hreach))
    as Hvalid.
  pose proof (stop_owns_running s (reachable_owns_running _ _ _ _ Hreach))
    as Howns.
  unfold reload, bind. rewrite stop_running in * by assumption.
  cbn [snd] in *.
  set (s0 := {| jobs := ∅; isRunning := false;
                tasks := foldr (fun entry ts =>
                                  alter (set_running false) (snd entry) ts)
                               (tasks s) (map_to_list (jobs s)) |}) in *.
  rewrite start_loads by (assumption || reflexivity).
  eexists. split; [reflexivity |]. cbn. split; [reflexivity |].
  destruct (scheduleRules_spec rules s0 Hvalid Howns Hnd) as [Hv _].
  destruct (scheduleRules_origin rules s0) as [Hjobs Hfires].
  assert (Hquiet : forall i, ~ rule_fires s0 i).
  { intros i Hf.
    destruct (rule_fires_table _ _ Howns Hf) as (job & Hjob & _).
    cbn in Hjob. now rewrite lookup_empty in Hjob. }
  split; [| split].
  - intros i. split.
    + intros [job Hjob]. destruct (Hjobs i job Hjob) as [H0 | H]; [| exact H].
      cbn in H0. now rewrite lookup_empty in H0.
    + intros (rule & Hin & <- & Hok).
      destruct (Hv rule Hin Hok) as (job & Hjob & _). now exists job.
  - intros i. split.
    + intros (job & t & r & Ht & Hrest).
      destruct (Hfires i) as [H0 | H]; [now exists job, t, r | | exact H].
      now apply Hquiet in H0.
    + intros (rule & Hin & <- & Hok).
      destruct (Hv rule Hin Hok) as (job & _ & Htask).
      exists job, (task_of rule), rule. now repeat split.
  - exact Hv.
Qed.

End Load.

End Cron.

Lemma started_task_is_the_table_job_witness :
  exists rule,
    task_rule (task_of five_minute_rule) = Some rule /\
    jobs one_job !! id rule = Some 0%nat /\
    (forall job' t' rule',
       tasks one_job !! job' = Some t' -> running t' = true ->
       task_rule t' = Some rule' -> id rule' = id rule -> job' = 0%nat).
Proof.
  apply (started_task_is_the_table_job six_fields
           defaults (Ok []) one_job 0%nat
           (task_of five_minute_rule)).
  - apply reach_scheduleRule, reach_initial.
  - reflexivity.
  - reflexivity.
Defined.

Lemma unscheduleRule_silences_rule_witness :
  exists s',
    unscheduleRule "r1" one_job = (Ok tt, s') /\
    jobs s' = delete "r1" (jobs one_job) /\
    isRunning s' = isRunning one_job /\
    ~ rule_fires s' "r1" /\
    (forall j job, j <> "r1" -> jobs one_job !! j = Some job ->
       jobs s' !! j = Some job /\ tasks s' !! job = tasks one_job !! job) /\
    unscheduleRule "r1" s' = (Ok tt, s').
Proof.
  apply (unscheduleRule_silences_rule six_fields
           defaults (Ok []) "r1" one_job).
  apply reach_scheduleRule, reach_initial.
Defined.

Lemma stop_silences_every_job_witness :
  exists s',
    stop started = (Ok tt, s') /\
    jobs s' = ∅ /\
    isRunning s' = false /\
    (forall job, fires s' job = false) /\
    getJobsStatus s' = (Ok [], s').
Proof.
  apply (stop_silences_every_job six_fields defaults (Ok [five_minute_rule])
           started).
  - apply reach_start, reach_initial.
  - reflexivity.
Defined.

Lemma disabled_scheduler_still_schedules_witness :
  isRunning initial = false /\
  start six_fields disabled (Ok [five_minute_rule]) initial
    = (Ok tt, initial) /\
  stop initial = (Ok tt, initial) /\
  reload six_fields disabled (Ok [five_minute_rule]) initial
    = (Ok tt, initial) /\
  (forall rule, valid_schedule six_fields rule ->
     exists s1 job,
       updateScheduledRule six_fields rule initial = (Ok tt, s1) /\
       jobs s1 !! id rule = Some job /\
       tasks s1 !! job = Some (task_of rule) /\
       stop s1 = (Ok tt, s1) /\
       fires (snd (stop s1)) job = true).
Proof.
  apply (disabled_scheduler_still_schedules six_fields
           disabled (Ok [five_minute_rule])
           initial).
  - reflexivity.
  - apply reach_initial.
Defined.

Lemma start_schedules_stored_rules_witness :
  exists s',
    start six_fields defaults (Ok [five_minute_rule; misspelt_rule]) one_job
      = (Ok tt, s') /\
    isRunning s' = true /\
    (forall rule, rule ∈ [five_minute_rule; misspelt_rule] ->
       valid_schedule six_fields rule ->
       exists job,
         jobs s' !! id rule = Some job /\
         tasks s' !! job = Some (task_of rule)) /\
    (forall rule, rule ∈ [five_minute_rule; misspelt_rule] ->
       invalid_schedule six_fields rule ->
       ~ rule_fires s' (id rule)) /\
    (forall i, i ∉ id <$> [five_minute_rule; misspelt_rule] ->
       jobs s' !! i = jobs one_job !! i /\
       forall job, jobs one_job !! i = Some job ->
                   tasks s' !! job = tasks one_job !! job).
Proof.
  apply (start_schedules_stored_rules six_fields
           defaults (Ok []) defaults
           [five_minute_rule; misspelt_rule] one_job).
  - apply reach_scheduleRule, reach_initial.
  - reflexivity.
  - reflexivity.
  - cbn. apply NoDup_cons. split; [| apply NoDup_singleton].
    intros H. apply list_elem_of_singleton in H. discriminate.
Defined.

Lemma start_rethrows_store_failure_witness :
  loadScheduledRules six_fields (Throw (Error "SQLITE_BUSY")) initial
    = (Throw (Error "SQLITE_BUSY"), initial) /\
  start six_fields defaults (Throw (Error "SQLITE_BUSY")) initial
    = (Throw (Error "SQLITE_BUSY"), initial) /\
  isRunning
    (snd (start six_fields defaults (Ok [five_minute_rule])
            (snd (start six_fields defaults (Throw (Error "SQLITE_BUSY"))
                    initial)))) = true.
Proof.
  apply (start_rethrows_store_failure six_fields defaults
           (Error "SQLITE_BUSY") [five_minute_rule] initial); reflexivity.
Defined.

Lemma reload_runs_exactly_stored_rules_witness :
  exists s',
    reload six_fields defaults (Ok [hourly_rule; misspelt_rule]) started
      = (Ok tt, s') /\
    isRunning s' = true /\
    (forall i, is_Some (jobs s' !! i) <->
       exists rule, rule ∈ [hourly_rule; misspelt_rule] /\ id rule = i /\
                    valid_schedule six_fields rule) /\
    (forall i, rule_fires s' i <->
       exists rule, rule ∈ [hourly_rule; misspelt_rule] /\ id rule = i /\
                    valid_schedule six_fields rule) /\
    (forall rule, rule ∈ [hourly_rule; misspelt_rule] ->
       valid_schedule six_fields rule ->
       exists job,
         jobs s' !! id rule = Some job /\
         tasks s' !! job = Some (task_of rule)).
Proof.
  apply (reload_runs_exactly_stored_rules six_fields
           defaults (Ok [five_minute_rule])
           defaults [hourly_rule; misspelt_rule] started).
  - apply reach_start, reach_initial.
  - reflexivity.
  - reflexivity.
  - cbn. apply NoDup_cons. split; [| apply NoDup_singleton].
    intros H. apply list_elem_of_singleton in H. discriminate.
Defined.

End SchedulerToolsFacts.

(** ** Runs of rules: scheduled and triggered *)

Module RunFacts.
Import Js Rules Config Evaluator EvaluatorVocabulary Executor Logger.
Import ExecutorVocabulary.
Import Objects ExecutorTools ScheduledRun RuleController RunVocabulary.
Import EvaluatorFacts ObjectsFacts ExecutorToolsFacts.

Lemma logWorkflow_open ruleId matched input s :
  db_open s = true ->
  logWorkflow ruleId matched input s =
  (Ok tt,
   {| world := world s; db_open := db_open s;
      workflow_logs :=
        workflow_logs s ++ [ {| log_ruleId := ruleId; log_matched := matched;
                                log_input := input |} ] |}).
Proof. intros H. destruct s as [w d l]. cbn in H. now subst d. Qed.

Lemma logWorkflow_closed ruleId matched input s :
  db_open s = false ->
  logWorkflow ruleId matched input s =
  (Throw (Error "Database not initialized. Call initDB() first."), s).
Proof. intros H. destruct s as [w d l]. cbn in H. now subst d. Qed.

(** The scheduled input always has its [timestamp] field. *)
Lemma generateScheduledInput_timestamp timestamp rule :
  exists fields,
    generateScheduledInput timestamp rule = JObject fields /\
    obj_get "timestamp" fields <> None.
Proof.
  unfold generateScheduledInput.
  destruct (scheduledInput rule) as [custom |].
  - eexists. split; [reflexivity |]. rewrite spread_get.
    now destruct (obj_get "timestamp" (rev custom)).
  - eexists. split; [reflexivity | discriminate].
Qed.

Lemma generateScheduledInput_not_empty timestamp rule :
  generateScheduledInput timestamp rule <> JObject [].
Proof.
  destruct (generateScheduledInput_timestamp timestamp rule)
    as (fields & -> & Hv).
  intros [= ->]. now apply Hv.
Qed.

(** X21.  The input of a scheduled run is an object in which a field has
    the value the rule's [scheduledInput] gives it, and otherwise the value
    of the default input ([timestamp], [trigger], [ruleId], [ruleName]): the
    rule's own fields win, also over [ruleId] and [trigger]. *)
Theorem scheduled_input_fields
    (timestamp : string) (rule : Rule) (key : string) :
  List.NoDup (map fst (default [] (scheduledInput rule))) ->
  exists fields,
    generateScheduledInput timestamp rule = JObject fields /\
    obj_get key fields =
      or_else (obj_get key (default [] (scheduledInput rule)))
              (obj_get key (baseInput timestamp rule)) /\
    List.NoDup (map fst fields).
Proof.
  intros Hnd.
  assert (Hbase : List.NoDup (map fst (baseInput timestamp rule))).
  { cbn. repeat constructor; cbn; intros H;
      repeat (destruct H as [H | H]; [discriminate |]); exact H. }
  unfold generateScheduledInput.
  destruct (scheduledInput rule) as [custom |]; cbn in Hnd |- *.
  - eexists. split; [reflexivity |]. split.
    + now rewrite spread_get, obj_get_rev.
    + now apply spread_names.
  - eexists. split; [reflexivity |]. now split.
Qed.

Section Services.

Variable jsonLogic_apply : jsval -> jsval -> result jsval.
Variable axios : nat -> RequestConfig -> result Response.
Variable config : Config.

(** X22.  With the database open, [executeScheduledRule] returns without
    throwing.  It hands exactly one row to the workflow log, with the rule
    id, the boolean [evaluateRule] returns for the rule's condition on the
    scheduled input, and that input; it issues requests only when the rule
    matched, at most one per webhook action, and never sleeps. *)
Theorem scheduled_run_logs_then_acts
    (timestamp : string) (rule : Rule) (s : System) :
  db_open s = true ->
  exists matched s' new,
    executeScheduledRule jsonLogic_apply axios config timestamp rule s
      = (Ok tt, s') /\
    evaluateRule jsonLogic_apply (conditions rule)
      (generateScheduledInput timestamp rule) = Ok matched /\
    workflow_logs s' =
      workflow_logs s ++
      [ {| log_ruleId := id rule; log_matched := matched;
           log_input := generateScheduledInput timestamp rule |} ] /\
    requests (world s') = requests (world s) ++ new /\
    (length new <=
     if matched then length (webhooks (actions rule)) else 0)%nat /\
    sleeps (world s') = sleeps (world s) /\
    db_open s' = true.
Proof.
  intros Hopen. unfold executeScheduledRule, try_catchM, bind.
  destruct (evaluateRule_returns jsonLogic_apply (conditions rule)
              (generateScheduledInput timestamp rule)) as (b & Hb & _).
  rewrite Hb, logWorkflow_open by assumption.
  destruct b.
  - unfold in_world. cbn [world].
    destruct (executeActions_effects axios config (actions rule)
                (generateScheduledInput timestamp rule)
                {| event := Some "scheduled"; ruleId := Some (id rule) |}
                (world s))
      as (results & w' & new & Hrun & _ & Hreq & Hlen & Hsleeps).
    rewrite Hrun. cbn.
    exists true. eexists _, new. split; [reflexivity |]. cbn.
    repeat split; assumption.
  - cbn. exists false. eexists _, []. split; [reflexivity |]. cbn.
    rewrite app_nil_r. repeat split; (assumption || lia).
Qed.

(** X23.  With the database closed, [executeScheduledRule] throws "Database
    not initialized": the evaluation row cannot be written, the handler
    that should log the failure throws in its turn, and no action is
    executed even when the rule matches. *)
Theorem scheduled_run_needs_database
    (timestamp : string) (rule : Rule) (s : System) :
  db_open s = false ->
  executeScheduledRule jsonLogic_apply axios config timestamp rule s =
  (Throw (Error "Database not initialized. Call initDB() first."), s).
Proof.
  intros Hclosed. unfold executeScheduledRule, try_catchM, bind.
  destruct (evaluateRule_returns jsonLogic_apply (conditions rule)
              (generateScheduledInput timestamp rule)) as (b & Hb & _).
  rewrite Hb. rewrite !logWorkflow_closed by assumption. reflexivity.
Qed.

(** X24.  The row [executeScheduledRule] writes in its error handler, with
    the input [{}], is written in no run: every row a run adds carries the
    scheduled input, which is never the empty object. *)
Theorem failure_row_is_never_written
    (timestamp : string) (rule : Rule) (s : System) (row : LogRow) :
  In row
     (workflow_logs
        (snd (executeScheduledRule jsonLogic_apply axios config timestamp
                rule s))) ->
  In row (workflow_logs s) \/
  (log_ruleId row = id rule /\
   log_input row = generateScheduledInput timestamp rule /\
   log_input row <> JObject []).
Proof.
  unfold executeScheduledRule, try_catchM, bind.
  destruct (evaluateRule_returns jsonLogic_apply (conditions rule)
              (generateScheduledInput timestamp rule)) as (b & Hb & _).
  rewrite Hb. destruct (db_open s) eqn:Hopen.
  - rewrite logWorkflow_open by assumption.
    assert (Hrow :
              In row
                 (workflow_logs s ++
                  [ {| log_ruleId := id rule; log_matched := b;
                       log_input := generateScheduledInput timestamp rule |} ])
              -> In row (workflow_logs s) \/
                 (log_ruleId row = id rule /\
                  log_input row = generateScheduledInput timestamp rule /\
                  log_input row <> JObject [])).
    { intros Hin. apply in_app_or in Hin as [Hin | [<- | []]]; [now left |].
      right. cbn. repeat split. apply generateScheduledInput_not_empty. }
    destruct b; [| exact Hrow].
    unfold in_world. cbn [world].
    destruct (executeActions_effects axios config (actions rule)
                (generateScheduledInput timestamp rule)
                {| event := Some "scheduled"; ruleId := Some (id rule) |}
                (world s)) as (rs & w2 & new & Hrun & _).
    rewrite Hrun. exact Hrow.
  - rewrite !logWorkflow_closed by assumption. cbn. now left.
Qed.


(** *** [triggerRules] *)

Lemma execute_matched_spec event data rules :
  forall matchedRules executionResults s,
    db_open s = true ->
    exists executions s' new,
      execute_matched axios config
        (map (entry_of jsonLogic_apply data) rules) event data
        matchedRules executionResults s
      = (Ok (matchedRules ++
             map (fun rule => (id rule, name rule))
                 (matching jsonLogic_apply data rules),
             executionResults ++ executions), s') /\
      Forall2 executed_for (matching jsonLogic_apply data rules)
              executions /\
      workflow_logs s' =
        workflow_logs s ++ map (row_of jsonLogic_apply data) rules /\
      requests (world s') = requests (world s) ++ new /\
      (length new <=
       length (webhooks
                 (concat (map actions
                            (matching jsonLogic_apply data rules)))))%nat /\
      sleeps (world s') = sleeps (world s) /\
      db_open s' = true.
Proof.
  induction rules as [| rule rest IH]; intros matchedRules executionResults
    s Hopen.
  - exists [], s, []. cbn. rewrite !app_nil_r.
    repeat split; (assumption || constructor || lia).
  - cbn [map execute_matched matching List.filter].
    fold (matching jsonLogic_apply data rest).
    destruct (matched (entry_of jsonLogic_apply data rule)) eqn:Hmatched.
    + unfold bind at 1. rewrite logWorkflow_open by assumption.
      unfold bind at 1. unfold in_world. cbn [world db_open workflow_logs].
      destruct (executeActions_effects axios config
                  (ev_actions (entry_of jsonLogic_apply data rule)) data
                  {| event := event;
                     ruleId := Some (Evaluator.ruleId
                                       (entry_of jsonLogic_apply data rule)) |}
                  (world s))
        as (results & w1 & new1 & Hrun & Hactions & Hreq1 & Hlen1 & Hsl1).
      rewrite Hrun.
      edestruct (IH (matchedRules ++
                     [(Evaluator.ruleId (entry_of jsonLogic_apply data rule),
                       ruleName (entry_of jsonLogic_apply data rule))])
                    (executionResults ++
                     [ {| ex_ruleId :=
                            Evaluator.ruleId
                              (entry_of jsonLogic_apply data rule);
                          ex_ruleName :=
                            ruleName (entry_of jsonLogic_apply data rule);
                          ex_actions := results |} ]))
        as (executions & s' & new2 & Hloop & Hexec & Hlogs & Hreq2 & Hlen2
            & Hsl2 & Hopen2); [| rewrite Hloop]; [exact Hopen |].
      cbn in Hlogs, Hreq2, Hsl2.
      eexists (_ :: executions), s', (new1 ++ new2).
      split; [cbn; now rewrite <- !app_assoc |].
      split; [constructor; [now repeat split | assumption] |].
      split.
      { rewrite Hlogs, <- app_assoc. cbn. unfold row_of at 2.
        now rewrite Hmatched. }
      split; [now rewrite Hreq2, Hreq1, app_assoc |].
      split; [| split; [congruence | assumption]].
      cbn [map concat]. unfold webhooks in *.
      rewrite List.filter_app, !length_app. cbn in Hlen1. lia.
    + unfold bind at 1. rewrite logWorkflow_open by assumption.
      edestruct (IH matchedRules executionResults)
        as (executions & s' & new2 & Hloop & Hexec & Hlogs & Hreq2 & Hlen2
            & Hsl2 & Hopen2); [| rewrite Hloop]; [exact Hopen |].
      cbn in Hlogs, Hreq2, Hsl2.
      exists executions, s', new2.
      split; [reflexivity |]. split; [assumption |].
      split.
      { rewrite Hlogs, <- app_assoc. cbn. unfold row_of at 2.
        now rewrite Hmatched. }
      repeat split; assumption.
Qed.

(** X25.  With the database open and a store that returns the active
    rules, [triggerRules] answers (nothing goes to [next]).  [totalRules]
    counts the rules; one row per rule is handed to the workflow log, in rule
    order, with the boolean of its evaluation and the request's data;
    [matchedRules] and [executionResults] list the matching rules in order,
    with one action result per action ([executionResults] is missing when
    there is no rule at all); webhooks are requested only for matching
    rules, at most one per webhook action, without a sleep. *)
Theorem trigger_logs_every_rule
    (rules : list Rule) (event : option string) (data : jsval)
    (s : System) :
  db_open s = true ->
  exists response s' new,
    triggerRules jsonLogic_apply axios config (Ok rules) event data s
      = (Ok response, s') /\
    tr_event response = event /\
    totalRules response = length rules /\
    matchedRules response =
      map (fun rule => (id rule, name rule))
          (matching jsonLogic_apply data rules) /\
    (exists executions,
       executionResults response =
         (if (length rules =? 0)%nat then None else Some executions) /\
       Forall2 executed_for (matching jsonLogic_apply data rules)
               executions) /\
    workflow_logs s' =
      workflow_logs s ++ map (row_of jsonLogic_apply data) rules /\
    requests (world s') = requests (world s) ++ new /\
    (length new <=
     length (webhooks
               (concat (map actions
                          (matching jsonLogic_apply data rules)))))%nat /\
    sleeps (world s') = sleeps (world s).
Proof.
  intros Hopen. unfold triggerRules, try_catchM, bind.
  destruct rules as [| rule rest].
  - cbn. eexists _, s, []. split; [reflexivity |]. cbn.
    rewrite !app_nil_r.
    repeat split; try lia. exists []. split; [reflexivity | constructor].
  - cbn [length Nat.eqb]. rewrite evaluateRules_entries.
    destruct (execute_matched_spec event data (rule :: rest) [] [] s Hopen)
      as (executions & s' & new & Hloop & Hexec & Hlogs & Hreq & Hlen
          & Hsl & _).
    rewrite Hloop. eexists _, s', new. split; [reflexivity |]. cbn.
    split; [reflexivity |]. split; [reflexivity |]. split; [reflexivity |].
    split; [now exists executions |].
    repeat split; assumption.
Qed.


End Services.

Lemma scheduled_input_fields_witness :
  exists fields,
    generateScheduledInput "2024-01-01T00:00:00.000Z" notifying_rule
      = JObject fields /\
    obj_get "trigger" fields =
      or_else (obj_get "trigger" (default [] (scheduledInput notifying_rule)))
              (obj_get "trigger"
                 (baseInput "2024-01-01T00:00:00.000Z" notifying_rule)) /\
    List.NoDup (map fst fields).
Proof.
  apply (scheduled_input_fields "2024-01-01T00:00:00.000Z" notifying_rule
           "trigger").
  cbn. repeat constructor. intros [].
Defined.

Lemma scheduled_run_logs_then_acts_witness :
  exists matched s' new,
    executeScheduledRule always_true (always 200) defaults
      "2024-01-01T00:00:00.000Z" notifying_rule fresh = (Ok tt, s') /\
    evaluateRule always_true (conditions notifying_rule)
      (generateScheduledInput "2024-01-01T00:00:00.000Z" notifying_rule)
      = Ok matched /\
    workflow_logs s' =
      workflow_logs fresh ++
      [ {| log_ruleId := id notifying_rule; log_matched := matched;
           log_input :=
             generateScheduledInput "2024-01-01T00:00:00.000Z"
               notifying_rule |} ] /\
    requests (world s') = requests (world fresh) ++ new /\
    (length new <=
     if matched then length (webhooks (actions notifying_rule)) else 0)%nat /\
    sleeps (world s') = sleeps (world fresh) /\
    db_open s' = true.
Proof.
  apply (scheduled_run_logs_then_acts always_true (always 200) defaults
           "2024-01-01T00:00:00.000Z" notifying_rule fresh).
  reflexivity.
Defined.

Lemma scheduled_run_needs_database_witness :
  executeScheduledRule always_true (always 200) defaults
    "2024-01-01T00:00:00.000Z" notifying_rule closed =
  (Throw (Error "Database not initialized. Call initDB() first."), closed).
Proof.
  apply (scheduled_run_needs_database always_true (always 200) defaults
           "2024-01-01T00:00:00.000Z" notifying_rule closed).
  reflexivity.
Defined.

Lemma failure_row_is_never_written_witness :
  In {| log_ruleId := "rule-7"; log_matched := true;
        log_input :=
          generateScheduledInput "2024-01-01T00:00:00.000Z"
            notifying_rule |}
     (workflow_logs fresh) \/
  (log_ruleId
     {| log_ruleId := "rule-7"; log_matched := true;
        log_input :=
          generateScheduledInput "2024-01-01T00:00:00.000Z"
            notifying_rule |} = id notifying_rule /\
   log_input
     {| log_ruleId := "rule-7"; log_matched := true;
        log_input :=
          generateScheduledInput "2024-01-01T00:00:00.000Z"
            notifying_rule |}
   = generateScheduledInput "2024-01-01T00:00:00.000Z" notifying_rule /\
   log_input
     {| log_ruleId := "rule-7"; log_matched := true;
        log_input :=
          generateScheduledInput "2024-01-01T00:00:00.000Z"
            notifying_rule |} <> JObject []).
Proof.
  apply (failure_row_is_never_written always_true (always 200) defaults
           "2024-01-01T00:00:00.000Z" notifying_rule fresh).
  cbn. left. reflexivity.
Defined.

Lemma trigger_logs_every_rule_witness :
  exists response s' new,
    triggerRules always_true (always 200) defaults
      (Ok [notifying_rule; malformed_rule]) (Some "order.created")
      (JObject [("amount", JNum 1500)]) fresh = (Ok response, s') /\
    tr_event response = Some "order.created" /\
    totalRules response = length [notifying_rule; malformed_rule] /\
    matchedRules response =
      map (fun rule => (id rule, name rule))
          (matching always_true (JObject [("amount", JNum 1500)])
             [notifying_rule; malformed_rule]) /\
    (exists executions,
       executionResults response =
         (if (length [notifying_rule; malformed_rule] =? 0)%nat
          then None else Some executions) /\
       Forall2 executed_for
         (matching always_true (JObject [("amount", JNum 1500)])
            [notifying_rule; malformed_rule])
         executions) /\
    workflow_logs s' =
      workflow_logs fresh ++
      map (row_of always_true (JObject [("amount", JNum 1500)]))
          [notifying_rule; malformed_rule] /\
    requests (world s') = requests (world fresh) ++ new /\
    (length new <=
     length (webhooks
               (concat (map actions
                          (matching always_true
                             (JObject [("amount", JNum 1500)])
                             [notifying_rule; malformed_rule])))))%nat /\
    sleeps (world s') = sleeps (world fresh).
Proof.
  apply (trigger_logs_every_rule always_true (always 200) defaults
           [notifying_rule; malformed_rule] (Some "order.created")
           (JObject [("amount", JNum 1500)]) fresh).
  reflexivity.
Defined.

End RunFacts.
